(** * textlint-rule-no-dead-link: a shallow embedding of [src/no-dead-link.js]

    The rule collects every URI of a document, and at the end of the
    document checks each of them: local ones through the file system,
    remote ones through HTTP, reporting dead and redirected links.

    The pure predicates of the rule are Rocq functions.  The asynchronous
    functions ([isAliveURI], [isAliveLocalFile], [lint]) are programs of a
    small monad [Prog] whose operations are the rule's effects: an awaited
    [fetch], an awaited [fs.access], a call of [report], and a thrown
    exception.  Programs are run against an arbitrary world by [exec], and
    interleaved with one another by the thread pool of [Promise.all]. *)

From Stdlib Require Import String Ascii List ZArith NArith Lia Bool.
From Stdlib Require Import DecimalString.
Import ListNotations.

Local Open Scope string_scope.
Local Open Scope Z_scope.

(** ** JavaScript values the rule handles *)

(** Strings are sequences of code units; the model keeps the code units
    below 256. *)

(** [`${n}`] for a status code. *)
Definition Number_toString (n : N) : string :=
  NilZero.string_of_uint (N.to_uint n).

(** [`${v}`] for a value that may be [undefined]. *)
Definition template (v : option string) : string :=
  match v with
  | Some s => s
  | None => "undefined"
  end.

(** Truthiness of a string-or-null/undefined value and of a number. *)
Definition truthy (v : option string) : bool :=
  match v with
  | Some s => negb (s =? "")%string
  | None => false
  end.

Definition truthy_num (n : Z) : bool := negb (n =? 0).

(** The string that a truthy value is. *)
Definition string_value (v : option string) : string :=
  match v with
  | Some s => s
  | None => ""
  end.

(** [a || b] on string-or-null values and [n || 0] on numbers. *)
Definition js_or (a b : option string) : option string :=
  if truthy a then a else b.

Definition js_or_num (n d : Z) : Z :=
  if truthy_num n then n else d.

(** [String.prototype.indexOf]: the first position of [pat] in [s], or -1. *)
Definition indexOf (s pat : string) : Z :=
  match index 0 pat s with
  | Some n => Z.of_nat n
  | None => -1
  end.

(** An exception value; the rule only reads its [message]. *)
Record JsError : Type := mkError { ex_message : string }.

(** The [Response] of [fetch].  [ok] is the getter of the Fetch standard:
    the status is in the range 200 to 299. *)
Record Response : Type := mkResponse {
  status : N;
  statusText : string;
  url : string
}.

Definition Response_ok (res : Response) : bool :=
  ((200 <=? status res) && (status res <=? 299))%N.

(** The second argument of [fetch]. *)
Record FetchOpts : Type := mkOpts {
  method : string;
  compress : bool;
  redirect : string
}.

(** [Object.assign({}, opts, { redirect: r })] *)
Definition with_redirect (opts : FetchOpts) (r : string) : FetchOpts :=
  {| method := method opts; compress := compress opts; redirect := r |}.

(** A settled promise. *)
Inductive Settled (T : Type) : Type :=
| Fulfilled (v : T)
| Rejected (ex : JsError).
Arguments Fulfilled {T} v.
Arguments Rejected {T} ex.

(** ** The host: textlint nodes, errors and fixes *)

Inductive Syntax : Type :=
| Document | Paragraph | BlockQuote | Str | Link | Other.

Definition Syntax_eqb (a b : Syntax) : bool :=
  match a, b with
  | Document, Document | Paragraph, Paragraph | BlockQuote, BlockQuote
  | Str, Str | Link, Link | Other, Other => true
  | _, _ => false
  end.

(** A node of the document: its type, its source text, the [url] of a
    link ([None] is [undefined]) and the types of its ancestors. *)
Record TxtNode : Type := mkNode {
  node_type : Syntax;
  raw : string;
  node_url : option string;
  ancestors : list Syntax
}.

(** [helper.isChildNode(node, types)] *)
Definition isChildNode (node : TxtNode) (types : list Syntax) : bool :=
  existsb (fun a => existsb (Syntax_eqb a) types) (ancestors node).

(** [fixer.replaceTextRange([start, end], text)] *)
Record Fix : Type := replaceTextRange {
  rangeStart : Z;
  rangeEnd : Z;
  replacementText : string
}.

(** [new RuleError(message, { fix, index })] *)
Record RuleError : Type := mkRuleError {
  err_message : string;
  err_index : Z;
  err_fix : option Fix
}.

(** ** Effects *)

(** A program of the rule: it returns, throws, awaits a [fetch] or a
    [fs.access] and goes on with the settled promise, or calls [report].
    [OutOfFuel] marks a recursion cut by its fuel. *)
Inductive Prog (A : Type) : Type :=
| Ret (a : A)
| Throw (ex : JsError)
| Fetch (uri : string) (opts : FetchOpts) (k : Settled Response -> Prog A)
| Access (path : string) (k : Settled unit -> Prog A)
| Report (node : TxtNode) (err : RuleError) (k : Prog A)
| OutOfFuel.
Arguments Ret {A} a.
Arguments Throw {A} ex.
Arguments Fetch {A} uri opts k.
Arguments Access {A} path k.
Arguments Report {A} node err k.
Arguments OutOfFuel {A}.

Fixpoint bind {A B : Type} (p : Prog A) (f : A -> Prog B) : Prog B :=
  match p with
  | Ret a => f a
  | Throw ex => Throw ex
  | Fetch uri opts k => Fetch uri opts (fun s => bind (k s) f)
  | Access path k => Access path (fun s => bind (k s) f)
  | Report node err k => Report node err (bind k f)
  | OutOfFuel => OutOfFuel
  end.

(** [try { p } catch (ex) { h ex }] *)
Fixpoint try_catch {A : Type} (p : Prog A) (h : JsError -> Prog A) : Prog A :=
  match p with
  | Ret a => Ret a
  | Throw ex => h ex
  | Fetch uri opts k => Fetch uri opts (fun s => try_catch (k s) h)
  | Access path k => Access path (fun s => try_catch (k s) h)
  | Report node err k => Report node err (try_catch k h)
  | OutOfFuel => OutOfFuel
  end.

(** [await p]: the value of a fulfilled promise, the exception of a
    rejected one. *)
Definition settle {T : Type} (s : Settled T) : Prog T :=
  match s with
  | Fulfilled v => Ret v
  | Rejected ex => Throw ex
  end.

Definition await_fetch (uri : string) (opts : FetchOpts) : Prog Response :=
  Fetch uri opts settle.

Definition await_access (path : string) : Prog unit :=
  Access path settle.

Definition report (node : TxtNode) (err : RuleError) : Prog unit :=
  Report node err (Ret tt).

(** An async function that returns a promise takes over its outcome.  The
    [return] of a promise inside [try] is not awaited there, so the
    promise is run outside the [try]. *)
Definition adopt {A : Type} (p : Prog (Prog A)) : Prog A :=
  bind p (fun q => q).

Declare Scope prog_scope.
Delimit Scope prog_scope with prog.
Notation "x <- p ;; q" := (bind p (fun x => q))
  (at level 100, p at next level, right associativity) : prog_scope.
Notation "p ;;; q" := (bind p (fun _ => q))
  (at level 100, right associativity) : prog_scope.

(** ** Libraries of Node.js the rule calls *)

(** The rule imports these functions; they are not part of it, and every
    statement below holds for whatever they compute. *)
Class NodeLibs : Type := {
  (** [URL.parse(uri).host]; [None] is [null] *)
  URL_parse_host : string -> option string;
  (** [URL.resolve(base, uri)] *)
  URL_resolve : string -> string -> string;
  (** [minimatch(uri, pattern)] *)
  minimatch : string -> string -> bool;
  (** [isAbsolute(path)] of [path] *)
  isAbsolute : string -> bool;
  (** [getURLOrigin(uri)]; [None] is [null] *)
  getURLOrigin : string -> option string
}.

(** Calls that throw are the matter of [NodeCalls] and [Throwing]
    below; [lint_throws_or_returns] relates the two: over calls that
    throw, [lint] throws at once or is the [lint] over these functions. *)

(** ** Options *)

Record Options : Type := mkOptions {
  checkRelative : bool;
  baseURI : option string;
  ignore : list string;
  preferGET : list string
}.

Definition DEFAULT_OPTIONS : Options :=
  {| checkRelative := true; baseURI := None; ignore := []; preferGET := [] |}.

(** The options object of the user: each property is present or not. *)
Record UserOptions : Type := mkUserOptions {
  user_checkRelative : option bool;
  user_baseURI : option (option string);
  user_ignore : option (list string);
  user_preferGET : option (list string)
}.

Definition or_default {T : Type} (v : option T) (d : T) : T :=
  match v with
  | Some x => x
  | None => d
  end.

(** [Object.assign({}, DEFAULT_OPTIONS, options)] *)
Definition assign_options (options : UserOptions) : Options :=
  {| checkRelative := or_default (user_checkRelative options) (checkRelative DEFAULT_OPTIONS);
     baseURI := or_default (user_baseURI options) (baseURI DEFAULT_OPTIONS);
     ignore := or_default (user_ignore options) (ignore DEFAULT_OPTIONS);
     preferGET := or_default (user_preferGET options) (preferGET DEFAULT_OPTIONS) |}.

(** ** The result of a liveness check *)

(** [{ ok, redirected, redirectTo, message }]; [redirected] is read for
    its truthiness only, an absent property is [false] or [None]. *)
Record AliveResult : Type := mkResult {
  ok : bool;
  redirected : bool;
  redirectTo : option string;
  message : option string
}.

(** [`${res.status} ${res.statusText}`] *)
Definition status_line (res : Response) : string :=
  Number_toString (status res) ++ " " ++ statusText res.

(** ** Classification *)

Definition isRedirect (code : N) : bool :=
  ((code =? 301) || (code =? 302) || (code =? 303) || (code =? 307)
   || (code =? 308))%N.

Definition option_string_eqb (a b : option string) : bool :=
  match a, b with
  | Some x, Some y => (x =? y)%string
  | None, None => true
  | _, _ => false
  end.

Section Classifier.
Context {L : NodeLibs}.

Definition isRelative (uri : string) : bool :=
  let host := URL_parse_host uri in
  option_string_eqb host None || option_string_eqb host (Some "").

Definition isLocal (uri : string) : bool :=
  if isAbsolute uri then true else isRelative uri.

Definition isIgnored (uri : string) (ignore : list string) : bool :=
  existsb (fun pattern => minimatch uri pattern) ignore.

End Classifier.

(** ** The probes *)

Definition probe_opts (method : string) : FetchOpts :=
  {| method := method; compress := false; redirect := "manual" |}.

(** [isAliveURI(uri, method)].  The function calls itself with ['GET'];
    [fuel] bounds the depth of these calls. *)
Fixpoint isAliveURI_fuel (fuel : nat) (uri method : string)
  : Prog AliveResult :=
  match fuel with
  | O => OutOfFuel
  | S fuel' =>
    let opts := probe_opts method in
    adopt (try_catch
      (res <- await_fetch uri opts ;;
       if isRedirect (status res) then
         finalRes <- await_fetch uri (with_redirect opts "follow") ;;
         Ret (Ret {| ok := Response_ok finalRes;
                     redirected := true;
                     redirectTo := Some (url finalRes);
                     message := Some (status_line res) |})
       else if negb (Response_ok res) && (method =? "HEAD")%string then
         Ret (isAliveURI_fuel fuel' uri "GET")
       else
         Ret (Ret {| ok := Response_ok res;
                     redirected := false;
                     redirectTo := None;
                     message := Some (status_line res) |}))%prog
      (fun ex =>
         if (method =? "HEAD")%string then
           Ret (isAliveURI_fuel fuel' uri "GET")
         else
           Ret (Ret {| ok := false;
                       redirected := false;
                       redirectTo := None;
                       message := Some (ex_message ex) |})))
  end.

(** The request that follows redirects, and the result of a probe whose
    request threw, as [isAliveURI] builds them. *)
Definition follow_opts (method : string) : FetchOpts :=
  with_redirect (probe_opts method) "follow".

Definition failed (ex : JsError) : AliveResult :=
  {| ok := false; redirected := false; redirectTo := None;
     message := Some (ex_message ex) |}.

(** Two levels are all the function ever uses: see [isAliveURI_fuel_enough]. *)
Definition isAliveURI (uri method : string) : Prog AliveResult :=
  isAliveURI_fuel 2 uri method.

(** A line terminator, which [.] of a regular expression does not match. *)
Definition isLineTerminator (c : ascii) : bool :=
  (c =? "010")%char || (c =? "013")%char.

Fixpoint hasLineTerminator (s : string) : bool :=
  match s with
  | EmptyString => false
  | String c s' => isLineTerminator c || hasLineTerminator s'
  end.

(** [filePath.replace(/[?#].*?$/, '')]: the first [?] or [#] that only
    characters matched by [.] follow up to the end of the string is
    removed with all that follows it. *)
Fixpoint stripQueryFragment (filePath : string) : string :=
  match filePath with
  | EmptyString => EmptyString
  | String c s' =>
    if ((c =? "?")%char || (c =? "#")%char) && negb (hasLineTerminator s')
    then EmptyString
    else String c (stripQueryFragment s')
  end.

Definition isAliveLocalFile (filePath : string) : Prog AliveResult :=
  try_catch
    (await_access (stripQueryFragment filePath) ;;;
     Ret {| ok := true; redirected := false; redirectTo := None;
            message := None |})%prog
    (fun ex =>
       Ret {| ok := false; redirected := false; redirectTo := None;
              message := Some (ex_message ex) |}).

(** ** The reporter *)

(** An entry of [URIs]: [{ node, uri, index }]. *)
Record URIOccurrence : Type := mkOccurrence {
  occ_node : TxtNode;
  occ_uri : string;
  occ_index : Z
}.

Definition UNRESOLVED_MESSAGE : string :=
  "Unable to resolve the relative URI. Please check if the base URI is correctly specified.".

Section Reporter.
Context {L : NodeLibs}.
(** [getFilePath()] of the context and the merged options [opts]. *)
Variable getFilePath : option string.
Variable opts : Options.

(** The method of the first request. *)
Definition select_method (uri : string) : string :=
  if (0 <? List.length
            (filter (fun origin =>
                       option_string_eqb (getURLOrigin uri) (getURLOrigin origin))
                    (preferGET opts)))%nat
  then "GET" else "HEAD".

(** What [lint] does once [uri] has its final value: the probe and the
    report of its result. *)
Definition lint_probe (node : TxtNode) (uri : string) (index : Z)
  : Prog unit :=
  (let method := select_method uri in
   result <- (if isLocal uri then isAliveLocalFile uri
              else isAliveURI uri method) ;;
   if negb (ok result) then
     let lintMessage :=
       uri ++ " is dead. (" ++ template (message result) ++ ")" in
     report node {| err_message := lintMessage; err_index := index;
                    err_fix := None |}
   else if redirected result then
     let lintMessage :=
       uri ++ " is redirected to " ++ template (redirectTo result)
           ++ ". (" ++ template (message result) ++ ")" in
     let fix_ := replaceTextRange index (index + Z.of_nat (String.length uri))
                                 (template (redirectTo result)) in
     report node {| err_message := lintMessage; err_index := index;
                    err_fix := Some fix_ |}
   else Ret tt)%prog.

(** The probe of [lint_probe] alone, to state what it does. *)
Definition probe_of (uri : string) : Prog AliveResult :=
  if isLocal uri then isAliveLocalFile uri
  else isAliveURI uri (select_method uri).

Definition lint (item : URIOccurrence) : Prog unit :=
  let node := occ_node item in
  let uri := occ_uri item in
  let index := occ_index item in
  if isIgnored uri (ignore opts) then Ret tt
  else if isRelative uri then
    if negb (checkRelative opts) then Ret tt
    else
      let filePath := getFilePath in
      let base := js_or (baseURI opts) filePath in
      if negb (truthy base) then
        report node {| err_message := UNRESOLVED_MESSAGE;
                       err_index := index; err_fix := None |}
      else
        lint_probe node (URL_resolve (string_value base) uri) index
  else lint_probe node uri index.

(** The handler of [Syntax.Link]: the occurrences it adds to [URIs]. *)
Definition Link_handler (URIs : list URIOccurrence) (node : TxtNode)
  : list URIOccurrence :=
  if isChildNode node [BlockQuote] then URIs
  else match node_url node with
       | None => URIs
       | Some u =>
         let index := js_or_num (indexOf (raw node) u) 0 in
         (URIs ++ [ {| occ_node := node; occ_uri := u; occ_index := index |} ])%list
       end.

(** The handler of [Document:exit]: the promises [URIs.map(lint)] that
    [Promise.all] waits for. *)
Definition Document_exit (URIs : list URIOccurrence) : list (Prog unit) :=
  map lint URIs.

End Reporter.

(** ** Library calls that throw *)

(** A call of a library returns or throws: [url.parse] throws a
    [URIError] on a URI whose user information cannot be decoded, and
    [url.resolve] and [getURLOrigin] parse with it; [minimatch] throws a
    [TypeError] on a pattern that is too long.  [lint] calls them outside
    any [try]. *)
Class NodeCalls : Type := {
  call_URL_parse_host : string -> Settled (option string);
  call_URL_resolve : string -> string -> Settled string;
  call_minimatch : string -> string -> Settled bool;
  call_isAbsolute : string -> Settled bool;
  call_getURLOrigin : string -> Settled (option string)
}.

(** Some call throws [ex]. *)
Definition library_threw (C : NodeCalls) (ex : JsError) : Prop :=
  (exists uri, call_URL_parse_host uri = Rejected ex)
  \/ (exists base uri, call_URL_resolve base uri = Rejected ex)
  \/ (exists uri pattern, call_minimatch uri pattern = Rejected ex)
  \/ (exists path, call_isAbsolute path = Rejected ex)
  \/ (exists uri, call_getURLOrigin uri = Rejected ex).

(** The value of a call that returns. *)
Definition returned {T : Type} (default : T) (s : Settled T) : T :=
  match s with
  | Fulfilled v => v
  | Rejected _ => default
  end.

(** The libraries as functions: what the calls that return compute. *)
Definition libs_of (C : NodeCalls) : NodeLibs :=
  {| URL_parse_host := fun uri => returned None (call_URL_parse_host uri);
     URL_resolve := fun base uri => returned "" (call_URL_resolve base uri);
     minimatch := fun uri pattern => returned false (call_minimatch uri pattern);
     isAbsolute := fun path => returned false (call_isAbsolute path);
     getURLOrigin := fun uri => returned None (call_getURLOrigin uri) |}.

(** The rule over calls that throw.  An exception thrown in [lint] goes
    through it: the promise of the check is rejected. *)
Module Throwing.
Section Calls.
Context {C : NodeCalls}.

Definition isRelative (uri : string) : Prog bool :=
  (host <- settle (call_URL_parse_host uri) ;;
   Ret (option_string_eqb host None || option_string_eqb host (Some "")))%prog.

Definition isLocal (uri : string) : Prog bool :=
  (absolute <- settle (call_isAbsolute uri) ;;
   if absolute then Ret true else isRelative uri)%prog.

(** [ignore.some(...)]: the patterns in order, up to the first that
    matches. *)
Fixpoint isIgnored (uri : string) (ignore : list string) : Prog bool :=
  match ignore with
  | [] => Ret false
  | pattern :: rest =>
    (matched <- settle (call_minimatch uri pattern) ;;
     if matched then Ret true else isIgnored uri rest)%prog
  end.

(** [preferGET.filter(...)]: for every entry the origin of the URI, then
    that of the entry. *)
Fixpoint matching_origins (uri : string) (origins : list string)
  : Prog (list string) :=
  match origins with
  | [] => Ret []
  | origin :: rest =>
    (a <- settle (call_getURLOrigin uri) ;;
     b <- settle (call_getURLOrigin origin) ;;
     more <- matching_origins uri rest ;;
     Ret (if option_string_eqb a b then origin :: more else more))%prog
  end.

Variable getFilePath : option string.
Variable opts : Options.

Definition select_method (uri : string) : Prog string :=
  (found <- matching_origins uri (preferGET opts) ;;
   Ret (if (0 <? List.length found)%nat then "GET" else "HEAD"))%prog.

Definition lint_probe (node : TxtNode) (uri : string) (index : Z)
  : Prog unit :=
  (method <- select_method uri ;;
   local <- isLocal uri ;;
   result <- (if local then isAliveLocalFile uri
              else isAliveURI uri method) ;;
   if negb (ok result) then
     let lintMessage :=
       uri ++ " is dead. (" ++ template (message result) ++ ")" in
     report node {| err_message := lintMessage; err_index := index;
                    err_fix := None |}
   else if redirected result then
     let lintMessage :=
       uri ++ " is redirected to " ++ template (redirectTo result)
           ++ ". (" ++ template (message result) ++ ")" in
     let fix_ := replaceTextRange index (index + Z.of_nat (String.length uri))
                                  (template (redirectTo result)) in
     report node {| err_message := lintMessage; err_index := index;
                    err_fix := Some fix_ |}
   else Ret tt)%prog.

Definition lint (item : URIOccurrence) : Prog unit :=
  let node := occ_node item in
  let uri := occ_uri item in
  let index := occ_index item in
  (ignored <- isIgnored uri (ignore opts) ;;
   if ignored then Ret tt
   else
     relative <- isRelative uri ;;
     if relative then
       if negb (checkRelative opts) then Ret tt
       else
         let filePath := getFilePath in
         let base := js_or (baseURI opts) filePath in
         if negb (truthy base) then
           report node {| err_message := UNRESOLVED_MESSAGE;
                          err_index := index; err_fix := None |}
         else
           resolved <- settle (call_URL_resolve (string_value base) uri) ;;
           lint_probe node resolved index
     else lint_probe node uri index)%prog.

Definition Document_exit (URIs : list URIOccurrence) : list (Prog unit) :=
  map lint URIs.

End Calls.
End Throwing.

(** ** Running a program *)

(** What a run observes, in order: each request with the way it settled,
    each file access with the way it settled, each reported error. *)
Inductive Event : Type :=
| EvFetch (uri : string) (opts : FetchOpts) (out : Settled Response)
| EvAccess (path : string) (out : Settled unit)
| EvReport (node : TxtNode) (err : RuleError).

(** The network and the file system.  How a request settles may depend
    on everything that happened before it. *)
Record World : Type := mkWorld {
  fetch : list Event -> string -> FetchOpts -> Settled Response;
  fs_access : list Event -> string -> Settled unit
}.

Inductive Outcome (A : Type) : Type :=
| Returned (a : A)
| Thrown (ex : JsError)
| Diverged.
Arguments Returned {A} a.
Arguments Thrown {A} ex.
Arguments Diverged {A}.

(** [exec w p h] runs [p] in the world [w] after the events [h]: the
    outcome of [p] and the events extended with those of the run. *)
Fixpoint exec {A : Type} (w : World) (p : Prog A) (h : list Event)
  : Outcome A * list Event :=
  match p with
  | Ret a => (Returned a, h)
  | Throw ex => (Thrown ex, h)
  | Fetch uri opts k =>
    let out := fetch w h uri opts in
    exec w (k out) (h ++ [EvFetch uri opts out])
  | Access path k =>
    let out := fs_access w h path in
    exec w (k out) (h ++ [EvAccess path out])
  | Report node err k => exec w k (h ++ [EvReport node err])
  | OutOfFuel => (Diverged, h)
  end.

(** The diagnostics among the events; an event that is not one is a probe. *)
Definition reports_of (h : list Event) : list (TxtNode * RuleError) :=
  flat_map (fun ev => match ev with
                      | EvReport node err => [(node, err)]
                      | _ => []
                      end) h.

Definition is_probe (ev : Event) : bool :=
  match ev with
  | EvReport _ _ => false
  | _ => true
  end.

(** The method of a request; a file access has none. *)
Definition requested_with (m : string) (ev : Event) : bool :=
  match ev with
  | EvFetch _ opts _ => (method opts =? m)%string
  | _ => false
  end.

(** ** Programs side by side *)

(** One step of a program, with the event it makes.  The way a promise
    settles is chosen by the environment. *)
Inductive tstep {A : Type} : Prog A -> Event -> Prog A -> Prop :=
| tstep_fetch uri opts k out :
    tstep (Fetch uri opts k) (EvFetch uri opts out) (k out)
| tstep_access path k out :
    tstep (Access path k) (EvAccess path out) (k out)
| tstep_report node err k :
    tstep (Report node err k) (EvReport node err) k.

Inductive tsteps {A : Type} : Prog A -> list Event -> Prog A -> Prop :=
| tsteps_nil p : tsteps p [] p
| tsteps_cons p ev q evs r :
    tstep p ev q -> tsteps q evs r -> tsteps p (ev :: evs) r.

(** The promises given to [Promise.all]: any of them takes the next
    step.  A step is labelled with the position of its promise. *)
Inductive pstep {A : Type}
  : list (Prog A) -> nat * Event -> list (Prog A) -> Prop :=
| pstep_at before p ev q after :
    tstep p ev q ->
    pstep (before ++ p :: after) (List.length before, ev) (before ++ q :: after).

Inductive psteps {A : Type}
  : list (Prog A) -> list (nat * Event) -> list (Prog A) -> Prop :=
| psteps_nil pool : psteps pool [] pool
| psteps_cons pool lab pool' labs pool'' :
    pstep pool lab pool' -> psteps pool' labs pool'' ->
    psteps pool (lab :: labs) pool''.

(** The events of the promise at position [i]. *)
Definition events_at (i : nat) (labs : list (nat * Event)) : list Event :=
  map snd (filter (fun lab => Nat.eqb (fst lab) i) labs).

Definition is_fulfilled {A : Type} (p : Prog A) : bool :=
  match p with
  | Ret _ => true
  | _ => false
  end.

Definition is_rejected {A : Type} (p : Prog A) : bool :=
  match p with
  | Throw _ => true
  | _ => false
  end.

(** [Promise.all]: rejected as soon as one promise is, fulfilled once all
    are, pending until then. *)
Inductive PromiseState : Type :=
| Pending | AllFulfilled | SomeRejected.

Definition Promise_all {A : Type} (pool : list (Prog A)) : PromiseState :=
  if existsb is_rejected pool then SomeRejected
  else if forallb is_fulfilled pool then AllFulfilled
  else Pending.

(** [Settles n p]: whatever the environment answers, [p] returns (it
    never throws nor runs out of fuel) after [n] steps at most. *)
Inductive Settles {A : Type} : nat -> Prog A -> Prop :=
| Settles_ret n a : Settles n (Ret a)
| Settles_fetch n uri opts k :
    (forall out, Settles n (k out)) -> Settles (S n) (Fetch uri opts k)
| Settles_access n path k :
    (forall out, Settles n (k out)) -> Settles (S n) (Access path k)
| Settles_report n node err k :
    Settles n k -> Settles (S n) (Report node err k).

(** A request with [HEAD] fails: it throws, or its response is neither a
    redirect nor in the range 200 to 299. *)
Definition head_fails (out : Settled Response) : Prop :=
  match out with
  | Rejected _ => True
  | Fulfilled res =>
    ~ In (status res) [301; 302; 303; 307; 308]%N
    /\ ~ (200 <= status res <= 299)%N
  end.

(** ** The URIs of a text node *)

(** The character classes of [URI_REGEXP], and the word characters that
    [\b] tells from the others. *)
Definition in_range (lo hi c : ascii) : bool :=
  ((nat_of_ascii lo <=? nat_of_ascii c) && (nat_of_ascii c <=? nat_of_ascii hi))%nat.

Definition is_lower (c : ascii) : bool := in_range "a" "z" c.

Definition is_alnum (c : ascii) : bool :=
  is_lower c || in_range "A" "Z" c || in_range "0" "9" c.

Fixpoint one_of (set : string) (c : ascii) : bool :=
  match set with
  | EmptyString => false
  | String a rest => (a =? c)%char || one_of rest c
  end.

(** [[-a-zA-Z0-9@:%._+~#=]] *)
Definition host_char (c : ascii) : bool := is_alnum c || one_of "-@:%._+~#=" c.

(** [[-a-zA-Z0-9@:%_+.~#?&//=]] *)
Definition tail_char (c : ascii) : bool :=
  is_alnum c || one_of "-@:%_+.~#?&//=" c.

Definition word_char (c : ascii) : bool := is_alnum c || (c =? "_")%char.

(** The constructs [URI_REGEXP] is made of: a literal, a greedy
    repetition [c{min,max}] of a character class, a greedy option
    [(?:r)?], a sequence, and [\b]. *)
Inductive Regex : Type :=
| Lit (l : string)
| Rep (cls : ascii -> bool) (min : nat) (max : option nat)
| Opt (r : Regex)
| Seq (r1 r2 : Regex)
| WordBoundary.

(** The pattern, part by part: [(?:https?:)?], [\/\/], [(?:www\.)?],
    the first class [{2,256}], [\.], [[a-z]{2,6}], [\b], and the second
    class repeated any number of times. *)
Definition URI_REGEXP : Regex :=
  Seq (Opt (Seq (Lit "http") (Seq (Opt (Lit "s")) (Lit ":"))))
  (Seq (Lit "//")
  (Seq (Opt (Lit "www."))
  (Seq (Rep host_char 2 (Some 256%nat))
  (Seq (Lit ".")
  (Seq (Rep is_lower 2 (Some 6%nat))
  (Seq WordBoundary
       (Rep tail_char 0 None))))))).

(** The pattern up to [\b], and its last part. *)
Definition URI_REGEXP_head : Regex :=
  Seq (Opt (Seq (Lit "http") (Seq (Opt (Lit "s")) (Lit ":"))))
  (Seq (Lit "//")
  (Seq (Opt (Lit "www."))
  (Seq (Rep host_char 2 (Some 256%nat))
  (Seq (Lit ".")
  (Seq (Rep is_lower 2 (Some 6%nat))
       WordBoundary))))).

Definition URI_REGEXP_tail : Regex := Rep tail_char 0 None.

(** A backtracking matcher.  [prev] is the character before the
    position, [s] the text from the position on, [n] the number of
    characters matched so far; [k] matches the rest of the pattern. *)
Definition Cont : Type := option ascii -> string -> nat -> option nat.

Fixpoint match_lit (l : string) (prev : option ascii) (s : string) (n : nat)
         (k : Cont) : option nat :=
  match l with
  | EmptyString => k prev s n
  | String a l' =>
    match s with
    | String c s' =>
      if (a =? c)%char then match_lit l' (Some c) s' (S n) k else None
    | EmptyString => None
    end
  end.

Definition may_repeat (max : option nat) : bool :=
  match max with
  | Some O => false
  | _ => true
  end.

Definition one_less (max : option nat) : option nat :=
  match max with
  | Some m => Some (pred m)
  | None => None
  end.

(** Greedy: one more character first, the rest of the pattern only if
    that fails. *)
Fixpoint match_rep (cls : ascii -> bool) (min : nat) (max : option nat)
         (prev : option ascii) (s : string) (n : nat) (k : Cont)
  : option nat :=
  let stop := if Nat.eqb min 0 then k prev s n else None in
  match s with
  | String c s' =>
    if cls c && may_repeat max then
      match match_rep cls (pred min) (one_less max) (Some c) s' (S n) k with
      | Some len => Some len
      | None => stop
      end
    else stop
  | EmptyString => stop
  end.

Definition is_word (c : option ascii) : bool :=
  match c with
  | Some a => word_char a
  | None => false
  end.

Definition first_char (s : string) : option ascii :=
  match s with
  | String c _ => Some c
  | EmptyString => None
  end.

Fixpoint match_regex (r : Regex) (prev : option ascii) (s : string) (n : nat)
         (k : Cont) : option nat :=
  match r with
  | Lit l => match_lit l prev s n k
  | Rep cls min max => match_rep cls min max prev s n k
  | Opt r' =>
    match match_regex r' prev s n k with
    | Some len => Some len
    | None => k prev s n
    end
  | Seq r1 r2 =>
    match_regex r1 prev s n (fun prev' s' n' => match_regex r2 prev' s' n' k)
  | WordBoundary =>
    if xorb (is_word prev) (is_word (first_char s)) then k prev s n else None
  end.

(** The length of the match of [URI_REGEXP] at a position, if any. *)
Definition match_at (prev : option ascii) (s : string) : option nat :=
  match_regex URI_REGEXP prev s 0 (fun _ _ n => Some n).

(** [text.replace(URI_REGEXP, (uri, index) => ...)] with the flag [g]:
    the matches from left to right, each searched from the end of the one
    before, with their positions.  [i] is the position of [s] in the
    text, [skip] the number of characters of a match still to pass. *)
Fixpoint scan (prev : option ascii) (s : string) (i : nat) (skip : nat)
  : list (string * Z) :=
  match s with
  | EmptyString =>
    match skip, match_at prev s with
    | O, Some len => [(substring 0 len s, Z.of_nat i)]
    | _, _ => []
    end
  | String c s' =>
    match skip with
    | S skip' => scan (Some c) s' (S i) skip'
    | O =>
      match match_at prev s with
      | Some len =>
        (substring 0 len s, Z.of_nat i) :: scan (Some c) s' (S i) (pred len)
      | None => scan (Some c) s' (S i) 0
      end
    end
  end.

Definition URI_matches (text : string) : list (string * Z) :=
  scan None text 0 0.

Section Visitor.
(** [getSource(node)] of the context. *)
Variable getSource : TxtNode -> string.

(** The handler of [Syntax.Str]: the occurrences it adds to [URIs]. *)
Definition Str_handler (URIs : list URIOccurrence) (node : TxtNode)
  : list URIOccurrence :=
  if isChildNode node [BlockQuote] then URIs
  else if isChildNode node [Link] then URIs
  else
    let text := getSource node in
    (URIs ++ map (fun m => {| occ_node := node; occ_uri := fst m;
                              occ_index := snd m |})
                 (URI_matches text))%list.

(** The handlers by type of node, and a traversal that calls them. *)
Definition visit (URIs : list URIOccurrence) (node : TxtNode)
  : list URIOccurrence :=
  match node_type node with
  | Str => Str_handler URIs node
  | Link => Link_handler URIs node
  | _ => URIs
  end.

Definition visit_all (nodes : list TxtNode) : list URIOccurrence :=
  fold_left visit nodes [].

End Visitor.

(** What a pattern can consume: [Consumes r prev pre rest] when [r]
    matches [pre] between the character [prev] and the text [rest]. *)
Fixpoint last_char (prev : option ascii) (pre : string) : option ascii :=
  match pre with
  | EmptyString => prev
  | String c pre' => last_char (Some c) pre'
  end.

Fixpoint all_chars (cls : ascii -> bool) (s : string) : bool :=
  match s with
  | EmptyString => true
  | String c s' => cls c && all_chars cls s'
  end.

Definition within (max : option nat) (n : nat) : Prop :=
  match max with
  | Some m => (n <= m)%nat
  | None => True
  end.

Inductive Consumes : Regex -> option ascii -> string -> string -> Prop :=
| Consumes_lit l prev rest : Consumes (Lit l) prev l rest
| Consumes_rep cls min max prev pre rest :
    all_chars cls pre = true ->
    (min <= String.length pre)%nat -> within max (String.length pre) ->
    Consumes (Rep cls min max) prev pre rest
| Consumes_opt r prev pre rest :
    Consumes r prev pre rest -> Consumes (Opt r) prev pre rest
| Consumes_skip r prev rest : Consumes (Opt r) prev "" rest
| Consumes_seq r1 r2 prev pre1 pre2 rest :
    Consumes r1 prev pre1 (pre2 ++ rest) ->
    Consumes r2 (last_char prev pre1) pre2 rest ->
    Consumes (Seq r1 r2) prev (pre1 ++ pre2) rest
| Consumes_boundary prev rest :
    xorb (is_word prev) (is_word (first_char rest)) = true ->
    Consumes WordBoundary prev "" rest.

(** Matches in the order of the text, none starting before the one
    before it ends, the first not before [from]. *)
Fixpoint in_order (from : Z) (ms : list (string * Z)) : Prop :=
  match ms with
  | [] => True
  | (uri, index) :: ms' =>
    from <= index /\ in_order (index + Z.of_nat (String.length uri)) ms'
  end.

(** A string with a [?] or a [#] in it. *)
Fixpoint has_query_or_fragment (s : string) : bool :=
  match s with
  | EmptyString => false
  | String c s' => (c =? "?")%char || (c =? "#")%char
                   || has_query_or_fragment s'
  end.

(** ** What the events of a probe may be *)

(** A request of the probe of [uri] with [m]: to [uri] itself, not
    compressed, with [m] or [GET], redirects handled by hand or
    followed. *)
Definition probe_request (uri m : string) (ev : Event) : bool :=
  match ev with
  | EvFetch u o _ =>
    (u =? uri)%string && negb (compress o)
    && ((method o =? m)%string || (method o =? "GET")%string)
    && ((redirect o =? "manual")%string || (redirect o =? "follow")%string)
  | _ => false
  end.

(** An answer that shows the target alive: a response with a status in
    200 to 299, or a file access that succeeded. *)
Definition alive_answer (ev : Event) : bool :=
  match ev with
  | EvFetch _ _ (Fulfilled res) => Response_ok res
  | EvAccess _ (Fulfilled _) => true
  | _ => false
  end.

(** A promise that settles within [n] steps, or is rejected already. *)
Definition SettlesOrThrown {A : Type} (n : nat) (p : Prog A) : Prop :=
  Settles n p \/ is_rejected p = true.

(** ** Stand-ins for the libraries and the world, to run the rule on
    examples *)

Fixpoint before_slash (s : string) : string :=
  match s with
  | EmptyString => EmptyString
  | String c s' => if (c =? "/")%char then EmptyString
                   else String c (before_slash s')
  end.

(** The host of an [http:] or [https:] URI, none for anything else. *)
Definition toy_host (uri : string) : option string :=
  if prefix "http://" uri then
    Some (before_slash (substring 7 (String.length uri - 7) uri))
  else if prefix "https://" uri then
    Some (before_slash (substring 8 (String.length uri - 8) uri))
  else None.

Definition toy_origin (uri : string) : option string :=
  if prefix "http://" uri then
    Some ("http://" ++ before_slash (substring 7 (String.length uri - 7) uri))
  else if prefix "https://" uri then
    Some ("https://" ++ before_slash (substring 8 (String.length uri - 8) uri))
  else None.

(** Resolution of [./name] and [name] against a base that ends in [/]. *)
Definition toy_resolve (base uri : string) : string :=
  if prefix "./" uri
  then base ++ substring 2 (String.length uri - 2) uri
  else base ++ uri.

(** A pattern matches itself, and [**] matches everything. *)
Definition toy_minimatch (uri pattern : string) : bool :=
  (pattern =? "**")%string || (uri =? pattern)%string.

Definition toy_libs : NodeLibs :=
  {| URL_parse_host := toy_host;
     URL_resolve := toy_resolve;
     minimatch := toy_minimatch;
     isAbsolute := prefix "/";
     getURLOrigin := toy_origin |}.

(** Calls that return what [toy_libs] computes. *)
Definition toy_calls : NodeCalls :=
  {| call_URL_parse_host := fun uri => Fulfilled (toy_host uri);
     call_URL_resolve := fun base uri => Fulfilled (toy_resolve base uri);
     call_minimatch := fun uri pattern => Fulfilled (toy_minimatch uri pattern);
     call_isAbsolute := fun path => Fulfilled (prefix "/" path);
     call_getURLOrigin := fun uri => Fulfilled (toy_origin uri) |}.

(** Calls that return what [toy_libs] computes, but for the parsing of
    one URI, which throws. *)
Definition malformed_uri : string := "http://%@example.com/".

Definition faulty_calls : NodeCalls :=
  {| call_URL_parse_host := fun uri =>
       if (uri =? malformed_uri)%string
       then Rejected (mkError "URI malformed")
       else Fulfilled (toy_host uri);
     call_URL_resolve := fun base uri => Fulfilled (toy_resolve base uri);
     call_minimatch := fun uri pattern => Fulfilled (toy_minimatch uri pattern);
     call_isAbsolute := fun path => Fulfilled (prefix "/" path);
     call_getURLOrigin := fun uri => Fulfilled (toy_origin uri) |}.

Definition malformed_item : URIOccurrence :=
  {| occ_node := {| node_type := Str;
                    raw := "see http://%@example.com/";
                    node_url := None;
                    ancestors := [Paragraph; Document] |};
     occ_uri := malformed_uri;
     occ_index := 4 |}.

(** A world that answers every request and every access the same way. *)
Definition constant_world (net : Settled Response) (disk : Settled unit)
  : World :=
  {| fetch := fun _ _ _ => net; fs_access := fun _ _ => disk |}.

(** A world that answers by the method and the redirect mode of the
    request. *)
Definition method_world
  (head get head_follow get_follow : Settled Response) : World :=
  {| fetch := fun _ _ opts =>
       if (method opts =? "HEAD")%string
       then if (redirect opts =? "manual")%string then head else head_follow
       else if (redirect opts =? "manual")%string then get else get_follow;
     fs_access := fun _ _ => Rejected (mkError "ENOENT") |}.

(** A link, its occurrence, and two responses. *)
Definition sample_node : TxtNode :=
  {| node_type := Link;
     raw := "[docs](http://example.com/old)";
     node_url := Some "http://example.com/old";
     ancestors := [Paragraph; Document] |}.

Definition sample_item : URIOccurrence :=
  {| occ_node := sample_node; occ_uri := "http://example.com/old";
     occ_index := 7 |}.

Definition moved : Response :=
  {| status := 301; statusText := "Moved Permanently";
     url := "http://example.com/old" |}.

Definition arrived : Response :=
  {| status := 200; statusText := "OK"; url := "http://example.com/new" |}.

(** A relative link and the options that ignore it. *)
Definition relative_node : TxtNode :=
  {| node_type := Link;
     raw := "[next](./new)";
     node_url := Some "./new";
     ancestors := [Paragraph; Document] |}.

Definition relative_item : URIOccurrence :=
  {| occ_node := relative_node; occ_uri := "./new"; occ_index := 7 |}.

Definition ignore_new : Options :=
  {| checkRelative := true; baseURI := None; ignore := ["./new"];
     preferGET := [] |}.

Definition with_base (base : string) : Options :=
  {| checkRelative := true; baseURI := Some base; ignore := [];
     preferGET := [] |}.

(** A redirect that ends at another path. *)
Definition arrived_elsewhere : Response :=
  {| status := 200; statusText := "OK";
     url := "http://example.com/v2/new" |}.

(** A reference-style link: its URL is not in its source text. *)
Definition reference_link : TxtNode :=
  {| node_type := Link;
     raw := "[docs][ref]";
     node_url := Some "http://example.com/";
     ancestors := [Paragraph; Document] |}.

(** A link to a local file. *)
Definition local_item : URIOccurrence :=
  {| occ_node := {| node_type := Link;
                    raw := "[notes](/tmp/notes.md#top)";
                    node_url := Some "/tmp/notes.md#top";
                    ancestors := [Paragraph; Document] |};
     occ_uri := "/tmp/notes.md#top";
     occ_index := 8 |}.

Definition prefer_get (origins : list string) : Options :=
  {| checkRelative := true; baseURI := None; ignore := [];
     preferGET := origins |}.

(** Two checks side by side: the second reports before the first is
    answered. *)
Definition sample_run : list (nat * Event) :=
  [ (1%nat,
     EvReport relative_node
       {| err_message := UNRESOLVED_MESSAGE; err_index := 7;
          err_fix := None |});
    (0%nat,
     EvFetch "http://example.com/old" (probe_opts "HEAD")
             (Fulfilled arrived)) ].

(** Two text nodes, one with URIs and one without a slash. *)
Definition sample_text : TxtNode :=
  {| node_type := Str;
     raw := "see http://example.com/a?b=1 and //www.foo.org.";
     node_url := None;
     ancestors := [Paragraph; Document] |}.

Definition plain_text : TxtNode :=
  {| node_type := Str;
     raw := "see www.example.com for more";
     node_url := None;
     ancestors := [Paragraph; Document] |}.

(** * Properties *)

(** ** Running through [bind] and [try_catch] *)

Lemma exec_bind {A B : Type} (w : World) (p : Prog A) (f : A -> Prog B) :
  forall h,
    exec w (bind p f) h =
    match exec w p h with
    | (Returned a, h') => exec w (f a) h'
    | (Thrown ex, h') => (Thrown ex, h')
    | (Diverged, h') => (Diverged, h')
    end.
Proof.
  induction p as [a | ex | uri opts k IH | path k IH | node err k IH | ];
    intros h; simpl; auto.
Qed.

Lemma exec_try_catch {A : Type} (w : World) (p : Prog A) (hd : JsError -> Prog A) :
  forall h,
    exec w (try_catch p hd) h =
    match exec w p h with
    | (Thrown ex, h') => exec w (hd ex) h'
    | other => other
    end.
Proof.
  induction p as [a | ex | uri opts k IH | path k IH | node err k IH | ];
    intros h; simpl; auto.
Qed.

Section Prober.

Variable w : World.
Variable uri : string.

Lemma probe_redirect_followed (m : string) (h : list Event)
      (res finalRes : Response) :
  fetch w h uri (probe_opts m) = Fulfilled res ->
  isRedirect (status res) = true ->
  fetch w (h ++ [EvFetch uri (probe_opts m) (Fulfilled res)]) uri (follow_opts m)
    = Fulfilled finalRes ->
  exec w (isAliveURI uri m) h =
  (Returned {| ok := Response_ok finalRes; redirected := true;
               redirectTo := Some (url finalRes);
               message := Some (status_line res) |},
   h ++ [EvFetch uri (probe_opts m) (Fulfilled res);
         EvFetch uri (follow_opts m) (Fulfilled finalRes)])%list.
Proof.
  intros H1 Hred H2. unfold follow_opts in *. simpl in *.
  unfold isAliveURI. simpl. rewrite H1. simpl. rewrite Hred. simpl.
  rewrite H2. simpl. rewrite <- app_assoc. reflexivity.
Qed.

(** A probe with [GET], case by case. *)
Lemma exec_isAliveURI_GET (n : nat) (h : list Event) :
  exec w (isAliveURI_fuel (S n) uri "GET") h =
  match fetch w h uri (probe_opts "GET") with
  | Rejected ex =>
    (Returned (failed ex), h ++ [EvFetch uri (probe_opts "GET") (Rejected ex)])
  | Fulfilled res =>
    let h1 := h ++ [EvFetch uri (probe_opts "GET") (Fulfilled res)] in
    if isRedirect (status res) then
      match fetch w h1 uri (follow_opts "GET") with
      | Fulfilled finalRes =>
        (Returned {| ok := Response_ok finalRes; redirected := true;
                     redirectTo := Some (url finalRes);
                     message := Some (status_line res) |},
         h1 ++ [EvFetch uri (follow_opts "GET") (Fulfilled finalRes)])
      | Rejected ex =>
        (Returned (failed ex),
         h1 ++ [EvFetch uri (follow_opts "GET") (Rejected ex)])
      end
    else
      (Returned {| ok := Response_ok res; redirected := false;
                   redirectTo := None; message := Some (status_line res) |},
       h1)
  end%list.
Proof.
  unfold follow_opts, failed. simpl.
  destruct (fetch w h uri (probe_opts "GET")) as [res | ex]; simpl; auto.
  destruct (isRedirect (status res)); simpl.
  - destruct (fetch w _ uri _) as [finalRes | ex]; simpl; auto.
  - rewrite andb_false_r. reflexivity.
Qed.

(** A probe with [HEAD], case by case: it ends with the answer to
    [HEAD], or goes on as a probe with [GET]. *)
Lemma exec_isAliveURI_HEAD (n : nat) (h : list Event) :
  exec w (isAliveURI_fuel (S n) uri "HEAD") h =
  match fetch w h uri (probe_opts "HEAD") with
  | Rejected ex =>
    exec w (isAliveURI_fuel n uri "GET")
         (h ++ [EvFetch uri (probe_opts "HEAD") (Rejected ex)])
  | Fulfilled res =>
    let h1 := h ++ [EvFetch uri (probe_opts "HEAD") (Fulfilled res)] in
    if isRedirect (status res) then
      match fetch w h1 uri (follow_opts "HEAD") with
      | Fulfilled finalRes =>
        (Returned {| ok := Response_ok finalRes; redirected := true;
                     redirectTo := Some (url finalRes);
                     message := Some (status_line res) |},
         h1 ++ [EvFetch uri (follow_opts "HEAD") (Fulfilled finalRes)])
      | Rejected ex =>
        exec w (isAliveURI_fuel n uri "GET")
             (h1 ++ [EvFetch uri (follow_opts "HEAD") (Rejected ex)])
      end
    else if Response_ok res then
      (Returned {| ok := true; redirected := false;
                   redirectTo := None; message := Some (status_line res) |},
       h1)
    else exec w (isAliveURI_fuel n uri "GET") h1
  end%list.
Proof.
  unfold follow_opts, failed. simpl.
  destruct (fetch w h uri (probe_opts "HEAD")) as [res | ex]; simpl; auto.
  destruct (isRedirect (status res)); simpl.
  - destruct (fetch w _ uri _) as [finalRes | ex]; simpl; auto.
  - destruct (Response_ok res); simpl; auto.
Qed.

(** With [GET] the function does not call itself: any fuel will do. *)
Lemma isAliveURI_fuel_GET (n : nat) (h : list Event) :
  exec w (isAliveURI_fuel (S n) uri "GET") h
  = exec w (isAliveURI uri "GET") h.
Proof.
  unfold isAliveURI. rewrite !exec_isAliveURI_GET. reflexivity.
Qed.

(** Two levels of fuel are enough for any method: more fuel changes
    nothing. *)
Lemma isAliveURI_fuel_enough (n : nat) (m : string) (h : list Event) :
  exec w (isAliveURI_fuel (S (S n)) uri m) h = exec w (isAliveURI uri m) h.
Proof.
  destruct (m =? "HEAD")%string eqn:E.
  - apply String.eqb_eq in E. subst m. unfold isAliveURI.
    rewrite !exec_isAliveURI_HEAD.
    destruct (fetch w h uri (probe_opts "HEAD")) as [res | ex];
      [| rewrite !isAliveURI_fuel_GET; reflexivity].
    cbv zeta. destruct (isRedirect (status res)).
    + destruct (fetch w _ uri _) as [finalRes | ex]; [reflexivity |].
      rewrite !isAliveURI_fuel_GET; reflexivity.
    + destruct (Response_ok res); [reflexivity |].
      rewrite !isAliveURI_fuel_GET; reflexivity.
  - unfold isAliveURI.
    cbn [isAliveURI_fuel adopt await_fetch bind try_catch exec].
    rewrite E.
    destruct (fetch w h uri (probe_opts m)) as [res | ex];
      cbn [settle bind try_catch exec]; [| reflexivity].
    destruct (isRedirect (status res));
      cbn [settle bind try_catch exec].
    + destruct (fetch w _ uri _) as [finalRes | ex];
        cbn [settle bind try_catch exec]; reflexivity.
    + rewrite andb_false_r. reflexivity.
Qed.

(** A probe with [GET] returns after one or two requests, all of them
    with [GET], and reports nothing. *)
Lemma isAliveURI_GET_trace (h : list Event) :
  exists (r : AliveResult) (evs : list Event),
    exec w (isAliveURI uri "GET") h = (Returned r, h ++ evs)%list
    /\ forallb (requested_with "GET") evs = true
    /\ (1 <= List.length evs <= 2)%nat.
Proof.
  unfold isAliveURI. rewrite exec_isAliveURI_GET.
  unfold follow_opts, failed. simpl.
  destruct (fetch w h uri (probe_opts "GET")) as [res | ex].
  - destruct (isRedirect (status res)).
    + destruct (fetch w _ uri _) as [finalRes | ex];
        eexists; eexists; (split; [rewrite <- app_assoc; reflexivity |]);
        simpl; split; auto.
    + eexists; eexists; (split; [reflexivity |]); simpl; split; auto.
  - eexists; eexists; (split; [reflexivity |]); simpl; split; auto.
Qed.

End Prober.

(** ** The reporter *)

Lemma isRedirect_codes (code : N) :
  isRedirect code = true <-> In code [301; 302; 303; 307; 308]%N.
Proof.
  unfold isRedirect. rewrite !orb_true_iff, !N.eqb_eq. simpl.
  intuition congruence.
Qed.

(** A successful response is not a redirect. *)
Lemma ok_not_redirect (res : Response) :
  Response_ok res = true -> isRedirect (status res) = false.
Proof.
  unfold Response_ok, isRedirect.
  rewrite andb_true_iff, !N.leb_le. intros [Hlo Hhi].
  rewrite !orb_false_iff, !N.eqb_neq. repeat split; lia.
Qed.

Section ReporterFacts.
Context {L : NodeLibs}.
Variable w : World.
Variable getFilePath : option string.
Variable opts : Options.

Lemma exec_lint_probe (node : TxtNode) (uri : string) (index : Z)
      (h : list Event) :
  exec w (lint_probe opts node uri index) h =
  match exec w (probe_of opts uri) h with
  | (Returned result, h1) =>
    if negb (ok result) then
      (Returned tt,
       h1 ++ [EvReport node
                {| err_message :=
                     uri ++ " is dead. (" ++ template (message result) ++ ")";
                   err_index := index; err_fix := None |}])%list
    else if redirected result then
      (Returned tt,
       h1 ++ [EvReport node
                {| err_message :=
                     uri ++ " is redirected to "
                         ++ template (redirectTo result)
                         ++ ". (" ++ template (message result) ++ ")";
                   err_index := index;
                   err_fix :=
                     Some (replaceTextRange
                             index (index + Z.of_nat (String.length uri))
                             (template (redirectTo result))) |}])%list
    else (Returned tt, h1)
  | (Thrown ex, h1) => (Thrown ex, h1)
  | (Diverged, h1) => (Diverged, h1)
  end.
Proof.
  unfold lint_probe, probe_of. rewrite exec_bind.
  destruct (exec w _ h) as [[result | ex | ] h1]; auto.
  destruct (ok result); simpl; auto.
  destruct (redirected result); simpl; auto.
Qed.

(** A URI that is neither ignored nor relative is probed as it is. *)
Lemma lint_absolute (item : URIOccurrence) :
  isIgnored (occ_uri item) (ignore opts) = false ->
  isRelative (occ_uri item) = false ->
  lint getFilePath opts item
  = lint_probe opts (occ_node item) (occ_uri item) (occ_index item).
Proof.
  intros Hi Hr. unfold lint. rewrite Hi, Hr. reflexivity.
Qed.

Lemma remote_not_relative (uri : string) :
  isLocal uri = false -> isRelative uri = false.
Proof.
  unfold isLocal. destruct (isAbsolute uri); congruence.
Qed.

End ReporterFacts.

(** ** Redirects *)

(** [C1] When the first response of a probe has a redirect status (301,
    302, 303, 307 or 308), the same request is made again with redirects
    followed; the result has the success flag and the URL of the final
    response, [redirected] set, and the status and status text of the
    first response as its message.  When the final response is
    successful, [lint] reports a redirect whose fix replaces the URI by
    the final URL and whose message holds the first status. *)
Theorem redirect_followed_and_reported
        {L : NodeLibs} (w : World) (getFilePath : option string)
        (opts : Options) (item : URIOccurrence) (m : string)
        (h : list Event) (res finalRes : Response) :
  let uri := occ_uri item in
  let manual := probe_opts m in
  let follow := with_redirect manual "follow" in
  let first := EvFetch uri manual (Fulfilled res) in
  let second := EvFetch uri follow (Fulfilled finalRes) in
  fetch w h uri manual = Fulfilled res ->
  In (status res) [301; 302; 303; 307; 308]%N ->
  fetch w (h ++ [first]) uri follow = Fulfilled finalRes ->
  exec w (isAliveURI uri m) h
  = (Returned {| ok := Response_ok finalRes;
                 redirected := true;
                 redirectTo := Some (url finalRes);
                 message := Some (Number_toString (status res) ++ " "
                                    ++ statusText res) |},
     (h ++ [first; second])%list)
  /\ follow = {| method := m; compress := false; redirect := "follow" |}
  /\ (isIgnored uri (ignore opts) = false ->
      isLocal uri = false ->
      select_method opts uri = m ->
      Response_ok finalRes = true ->
      exec w (lint getFilePath opts item) h
      = (Returned tt,
         (h ++ [first; second;
               EvReport (occ_node item)
                 {| err_message :=
                      uri ++ " is redirected to " ++ url finalRes ++ ". ("
                          ++ (Number_toString (status res) ++ " "
                                ++ statusText res) ++ ")";
                    err_index := occ_index item;
                    err_fix :=
                      Some (replaceTextRange
                              (occ_index item)
                              (occ_index item + Z.of_nat (String.length uri))
                              (url finalRes)) |}])%list)).
Proof.
  intros uri manual follow first second H1 Hcode H2.
  apply isRedirect_codes in Hcode.
  pose proof (probe_redirect_followed w uri m h res finalRes H1 Hcode H2) as Hp.
  split; [exact Hp | split; [reflexivity |]].
  intros Hi Hl Hm Hok.
  rewrite lint_absolute by (auto using remote_not_relative).
  rewrite exec_lint_probe. unfold probe_of. fold uri. rewrite Hl, Hm, Hp.
  cbn [ok redirected redirectTo message template]. rewrite Hok.
  cbn [negb]. rewrite <- app_assoc. reflexivity.
Qed.

Lemma redirect_followed_and_reported_witness :
  reports_of
    (snd (exec (method_world (Fulfilled moved) (Fulfilled arrived)
                             (Fulfilled arrived) (Fulfilled arrived))
               (lint (L := toy_libs) None DEFAULT_OPTIONS sample_item) []))
  = [(sample_node,
      {| err_message :=
           "http://example.com/old is redirected to http://example.com/new. (301 Moved Permanently)";
         err_index := 7;
         err_fix := Some (replaceTextRange 7 29 "http://example.com/new") |})].
Proof.
  destruct (redirect_followed_and_reported
              (L := toy_libs)
              (method_world (Fulfilled moved) (Fulfilled arrived)
                            (Fulfilled arrived) (Fulfilled arrived))
              None DEFAULT_OPTIONS sample_item "HEAD" [] moved arrived
              eq_refl (or_introl eq_refl) eq_refl) as [_ [_ Hlint]].
  rewrite (Hlint eq_refl eq_refl eq_refl eq_refl). reflexivity.
Defined.

(** ** The fallback from HEAD to GET *)


Lemma not_ok_status (res : Response) :
  ~ (200 <= status res <= 299)%N <-> Response_ok res = false.
Proof.
  unfold Response_ok. rewrite andb_false_iff, !N.leb_gt. lia.
Qed.

Lemma head_fails_retries (w : World) (uri : string)
      (h : list Event) (out : Settled Response) :
  fetch w h uri (probe_opts "HEAD") = out ->
  head_fails out ->
  exec w (isAliveURI uri "HEAD") h
  = exec w (isAliveURI uri "GET")
         (h ++ [EvFetch uri (probe_opts "HEAD") out])%list.
Proof.
  intros Hf Hfail. unfold isAliveURI at 1.
  rewrite exec_isAliveURI_HEAD, Hf.
  destruct out as [res | ex]; [| apply isAliveURI_fuel_GET].
  destruct Hfail as [Hnr Hno].
  rewrite <- isRedirect_codes in Hnr. apply not_true_is_false in Hnr.
  apply not_ok_status in Hno. cbv zeta. rewrite Hnr, Hno.
  apply isAliveURI_fuel_GET.
Qed.

(** [C2] A probe with [HEAD] whose request throws, or is answered by a
    status that is neither a redirect nor in 200 to 299, is started over
    with [GET], once: what follows are one or two requests with [GET] and
    nothing else.  If the request with [GET] throws, the result is not ok
    and its message is the text of that exception; if it is answered
    successfully, the probe is ok and [lint] reports nothing. *)
Theorem head_failure_retried_with_get
        {L : NodeLibs} (w : World) (getFilePath : option string)
        (opts : Options) (item : URIOccurrence) (h : list Event)
        (out : Settled Response) :
  let uri := occ_uri item in
  let head := EvFetch uri (probe_opts "HEAD") out in
  let probed_with_head :=
      isIgnored uri (ignore opts) = false /\ isLocal uri = false
      /\ select_method opts uri = "HEAD" in
  fetch w h uri (probe_opts "HEAD") = out ->
  head_fails out ->
  exec w (isAliveURI uri "HEAD") h
  = exec w (isAliveURI uri "GET") (h ++ [head])%list
  /\ (exists (r : AliveResult) (evs : list Event),
        exec w (isAliveURI uri "HEAD") h
        = (Returned r, ((h ++ [head]) ++ evs)%list)
        /\ forallb (requested_with "GET") evs = true
        /\ (1 <= List.length evs <= 2)%nat)
  /\ (forall ex : JsError,
        fetch w (h ++ [head])%list uri (probe_opts "GET") = Rejected ex ->
        let get := EvFetch uri (probe_opts "GET") (Rejected ex) in
        exec w (isAliveURI uri "HEAD") h
        = (Returned {| ok := false; redirected := false; redirectTo := None;
                       message := Some (ex_message ex) |},
           (h ++ [head; get])%list)
        /\ (probed_with_head ->
            exec w (lint getFilePath opts item) h
            = (Returned tt,
               (h ++ [head; get;
                      EvReport (occ_node item)
                        {| err_message :=
                             uri ++ " is dead. (" ++ ex_message ex ++ ")";
                           err_index := occ_index item;
                           err_fix := None |}])%list)))
  /\ (forall res : Response,
        fetch w (h ++ [head])%list uri (probe_opts "GET") = Fulfilled res ->
        (200 <= status res <= 299)%N ->
        let get := EvFetch uri (probe_opts "GET") (Fulfilled res) in
        exec w (isAliveURI uri "HEAD") h
        = (Returned {| ok := true; redirected := false; redirectTo := None;
                       message := Some (Number_toString (status res) ++ " "
                                          ++ statusText res) |},
           (h ++ [head; get])%list)
        /\ (probed_with_head ->
            exec w (lint getFilePath opts item) h
            = (Returned tt, (h ++ [head; get])%list))).
Proof.
  intros uri head probed Hf Hfail.
  pose proof (head_fails_retries w uri h out Hf Hfail) as Hretry.
  fold head in Hretry.
  assert (Hlint : probed ->
                  exec w (lint getFilePath opts item) h
                  = exec w (lint_probe opts (occ_node item) uri
                                       (occ_index item)) h).
  { intros (Hi & Hl & Hm).
    rewrite lint_absolute by (auto using remote_not_relative).
    reflexivity. }
  split; [exact Hretry |]. split; [| split].
  - rewrite Hretry. apply isAliveURI_GET_trace.
  - intros ex Hg get.
    assert (Hp : exec w (isAliveURI uri "HEAD") h
                 = (Returned {| ok := false; redirected := false;
                                redirectTo := None;
                                message := Some (ex_message ex) |},
                    (h ++ [head; get])%list)).
    { rewrite Hretry. unfold isAliveURI.
      rewrite exec_isAliveURI_GET, Hg, <- app_assoc. reflexivity. }
    split; [exact Hp |].
    intros Hprobed. rewrite (Hlint Hprobed).
    destruct Hprobed as (Hi & Hl & Hm).
    rewrite exec_lint_probe. unfold probe_of. rewrite Hl, Hm, Hp.
    cbn [ok negb message template]. rewrite <- app_assoc. reflexivity.
  - intros res Hg Hok get.
    assert (Hok' : Response_ok res = true).
    { destruct (Response_ok res) eqn:E; [reflexivity |].
      apply not_ok_status in E. contradiction. }
    assert (Hp : exec w (isAliveURI uri "HEAD") h
                 = (Returned {| ok := true; redirected := false;
                                redirectTo := None;
                                message := Some (status_line res) |},
                    (h ++ [head; get])%list)).
    { rewrite Hretry. unfold isAliveURI.
      rewrite exec_isAliveURI_GET, Hg. cbv zeta.
      rewrite (ok_not_redirect res Hok'), Hok', <- app_assoc. reflexivity. }
    split; [exact Hp |].
    intros Hprobed. rewrite (Hlint Hprobed).
    destruct Hprobed as (Hi & Hl & Hm).
    rewrite exec_lint_probe. unfold probe_of. rewrite Hl, Hm, Hp.
    reflexivity.
Qed.

Lemma head_failure_retried_with_get_witness :
  reports_of
    (snd (exec (method_world (Rejected (mkError "HEAD refused"))
                             (Rejected (mkError "GET refused"))
                             (Fulfilled arrived) (Fulfilled arrived))
               (lint (L := toy_libs) None DEFAULT_OPTIONS sample_item) []))
  = [(sample_node,
      {| err_message := "http://example.com/old is dead. (GET refused)";
         err_index := 7;
         err_fix := None |})].
Proof.
  destruct (head_failure_retried_with_get
              (L := toy_libs)
              (method_world (Rejected (mkError "HEAD refused"))
                            (Rejected (mkError "GET refused"))
                            (Fulfilled arrived) (Fulfilled arrived))
              None DEFAULT_OPTIONS sample_item []
              (Rejected (mkError "HEAD refused")) eq_refl I)
    as (_ & _ & Hthrows & _).
  destruct (Hthrows (mkError "GET refused") eq_refl) as [_ Hlint].
  rewrite (Hlint (conj eq_refl (conj eq_refl eq_refl))). reflexivity.
Defined.

(** ** Ignored URIs *)

Lemma isIgnored_some {L : NodeLibs} (uri : string) (patterns : list string) :
  isIgnored uri patterns = true
  <-> exists pattern, In pattern patterns /\ minimatch uri pattern = true.
Proof.
  unfold isIgnored. apply existsb_exists.
Qed.

(** [C7] A URI that some pattern of the ignore list matches is neither
    probed nor reported, in any world: [lint] returns at once and leaves
    no event.  With the default, empty, list no URI is ignored. *)
Theorem ignored_uri_neither_probed_nor_reported
        {L : NodeLibs} (getFilePath : option string) (opts : Options)
        (item : URIOccurrence) (pattern : string) :
  In pattern (ignore opts) ->
  minimatch (occ_uri item) pattern = true ->
  lint getFilePath opts item = Ret tt
  /\ (forall (w : World) (h : list Event),
        exec w (lint getFilePath opts item) h = (Returned tt, h))
  /\ (forall uri : string, isIgnored uri [] = false)
  /\ (forall (uri : string) (options : UserOptions),
        user_ignore options = None ->
        isIgnored uri (ignore (assign_options options)) = false).
Proof.
  intros Hin Hm.
  assert (Hi : isIgnored (occ_uri item) (ignore opts) = true).
  { apply isIgnored_some. exists pattern. split; assumption. }
  assert (Hl : lint getFilePath opts item = Ret tt).
  { unfold lint. rewrite Hi. reflexivity. }
  split; [exact Hl |]. split; [| split]; try reflexivity.
  - intros w h. rewrite Hl. reflexivity.
  - intros uri options Hnone. unfold assign_options. cbn [ignore].
    rewrite Hnone. reflexivity.
Qed.

Lemma ignored_uri_neither_probed_nor_reported_witness :
  exec (constant_world (Rejected (mkError "unreachable"))
                       (Rejected (mkError "ENOENT")))
       (lint (L := toy_libs) None
             {| checkRelative := true; baseURI := None;
                ignore := ["http://example.com/old"]; preferGET := [] |}
             sample_item) []
  = (Returned tt, []).
Proof.
  destruct (ignored_uri_neither_probed_nor_reported
              (L := toy_libs) None
              {| checkRelative := true; baseURI := None;
                 ignore := ["http://example.com/old"]; preferGET := [] |}
              sample_item "http://example.com/old"
              (or_introl eq_refl) eq_refl) as (_ & Hexec & _).
  apply Hexec.
Defined.

(** ** Local files *)

Lemma exec_isAliveLocalFile (w : World) (filePath : string) (h : list Event) :
  exec w (isAliveLocalFile filePath) h =
  let path := stripQueryFragment filePath in
  match fs_access w h path with
  | Fulfilled u =>
    (Returned {| ok := true; redirected := false; redirectTo := None;
                 message := None |},
     (h ++ [EvAccess path (Fulfilled u)])%list)
  | Rejected ex =>
    (Returned {| ok := false; redirected := false; redirectTo := None;
                 message := Some (ex_message ex) |},
     (h ++ [EvAccess path (Rejected ex)])%list)
  end.
Proof.
  unfold isAliveLocalFile, await_access. simpl.
  destruct (fs_access w h (stripQueryFragment filePath)); reflexivity.
Qed.

(** ** Every probe returns *)

Lemma select_method_cases {L : NodeLibs} (opts : Options) (uri : string) :
  select_method opts uri = "GET" \/ select_method opts uri = "HEAD".
Proof.
  unfold select_method. destruct (0 <? _)%nat; auto.
Qed.

Lemma requested_is_probe (m : string) (evs : list Event) :
  forallb (requested_with m) evs = true -> forallb is_probe evs = true.
Proof.
  rewrite !forallb_forall. intros H ev Hin. specialize (H ev Hin).
  destruct ev; simpl in *; congruence.
Qed.

Lemma isAliveURI_HEAD_returns (w : World) (uri : string) (h : list Event) :
  exists (r : AliveResult) (evs : list Event),
    exec w (isAliveURI uri "HEAD") h = (Returned r, (h ++ evs)%list)
    /\ forallb is_probe evs = true.
Proof.
  assert (Hget : forall h0 evs0,
             forallb is_probe evs0 = true ->
             exists r evs,
               exec w (isAliveURI_fuel 1 uri "GET") ((h0 ++ evs0)%list)
               = (Returned r, (h0 ++ evs)%list)
               /\ forallb is_probe evs = true).
  { intros h0 evs0 H0. rewrite isAliveURI_fuel_GET.
    destruct (isAliveURI_GET_trace w uri (h0 ++ evs0)%list)
      as (r & evs & Hr & Hg & _).
    exists r, (evs0 ++ evs)%list. rewrite Hr, app_assoc. split; [reflexivity |].
    rewrite forallb_app, H0. eapply requested_is_probe; eassumption. }
  unfold isAliveURI. rewrite exec_isAliveURI_HEAD.
  destruct (fetch w h uri (probe_opts "HEAD")) as [res | ex];
    [| apply Hget; reflexivity].
  cbv zeta. destruct (isRedirect (status res)).
  - destruct (fetch w _ uri _) as [finalRes | ex].
    + eexists; eexists. rewrite <- app_assoc. split; reflexivity.
    + rewrite <- app_assoc. apply Hget; reflexivity.
  - destruct (Response_ok res); [| apply Hget; reflexivity].
    eexists; eexists; split; reflexivity.
Qed.

(** The probe of any URI returns a result, and makes no report. *)
Lemma probe_of_returns {L : NodeLibs} (w : World) (opts : Options)
      (uri : string) (h : list Event) :
  exists (r : AliveResult) (evs : list Event),
    exec w (probe_of opts uri) h = (Returned r, (h ++ evs)%list)
    /\ forallb is_probe evs = true.
Proof.
  unfold probe_of. destruct (isLocal uri).
  - rewrite exec_isAliveLocalFile. cbv zeta.
    destruct (fs_access w h _); eexists; eexists; split; reflexivity.
  - destruct (select_method_cases opts uri) as [-> | ->].
    + destruct (isAliveURI_GET_trace w uri h) as (r & evs & Hr & Hg & _).
      exists r, evs. split; [exact Hr |].
      eapply requested_is_probe; eassumption.
    + apply isAliveURI_HEAD_returns.
Qed.

(** ** Relative URIs *)

Section Relative.
Context {L : NodeLibs}.
Variable getFilePath : option string.
Variable opts : Options.
Variable item : URIOccurrence.

Hypothesis not_ignored : isIgnored (occ_uri item) (ignore opts) = false.
Hypothesis relative : isRelative (occ_uri item) = true.
Hypothesis checked : checkRelative opts = true.

Lemma lint_unresolved :
  truthy (js_or (baseURI opts) getFilePath) = false ->
  lint getFilePath opts item
  = report (occ_node item)
           {| err_message := UNRESOLVED_MESSAGE;
              err_index := occ_index item; err_fix := None |}.
Proof.
  intros Hb. unfold lint.
  rewrite not_ignored, relative, checked, Hb. reflexivity.
Qed.

Lemma lint_resolved :
  truthy (js_or (baseURI opts) getFilePath) = true ->
  lint getFilePath opts item
  = lint_probe opts (occ_node item)
               (URL_resolve
                  (string_value (js_or (baseURI opts) getFilePath))
                  (occ_uri item))
               (occ_index item).
Proof.
  intros Hb. unfold lint.
  rewrite not_ignored, relative, checked, Hb. reflexivity.
Qed.

End Relative.

(** [C3] For an occurrence that no ignore pattern matches, whose URI is
    relative, with [checkRelative] enabled: the base is [baseURI] when it
    is set to a non-empty string, else (not set, or set to the empty
    string) the path of the file.  With a
    base, the URI resolved against it is what is probed.  Without one,
    [lint] reports, at the offset of the occurrence, the one message that
    the URI cannot be resolved, and probes nothing. *)
Theorem relative_uri_base_or_report
        {L : NodeLibs} (getFilePath : option string) (opts : Options)
        (item : URIOccurrence) :
  let uri := occ_uri item in
  let base := js_or (baseURI opts) getFilePath in
  isIgnored uri (ignore opts) = false ->
  isRelative uri = true ->
  checkRelative opts = true ->
  (forall b : string, baseURI opts = Some b -> b <> "" -> base = Some b)
  /\ (baseURI opts = None -> base = getFilePath)
  /\ (baseURI opts = Some "" -> base = getFilePath)
  /\ (truthy base = true ->
      lint getFilePath opts item
      = lint_probe opts (occ_node item)
                   (URL_resolve (string_value base) uri) (occ_index item))
  /\ (truthy base = false ->
      forall (w : World) (h : list Event),
        exec w (lint getFilePath opts item) h
        = (Returned tt,
           (h ++ [EvReport (occ_node item)
                    {| err_message :=
                         "Unable to resolve the relative URI. Please check if the base URI is correctly specified.";
                       err_index := occ_index item;
                       err_fix := None |}])%list)).
Proof.
  intros uri base Hi Hr Hc. repeat split.
  - intros b Hb Hne. subst base. unfold js_or. rewrite Hb. simpl.
    apply String.eqb_neq in Hne. rewrite Hne. reflexivity.
  - intros Hb. subst base. unfold js_or. rewrite Hb. reflexivity.
  - intros Hb. subst base. unfold js_or. rewrite Hb. reflexivity.
  - intros Hb. apply lint_resolved; assumption.
  - intros Hb w h. rewrite lint_unresolved by assumption. reflexivity.
Qed.

Lemma relative_uri_base_or_report_witness :
  exec (constant_world (Fulfilled arrived) (Fulfilled tt))
       (lint (L := toy_libs) None DEFAULT_OPTIONS relative_item) []
  = (Returned tt,
     [EvReport relative_node
        {| err_message :=
             "Unable to resolve the relative URI. Please check if the base URI is correctly specified.";
           err_index := 7;
           err_fix := None |}]).
Proof.
  destruct (relative_uri_base_or_report
              (L := toy_libs) None DEFAULT_OPTIONS relative_item
              eq_refl eq_refl eq_refl) as (_ & _ & _ & _ & Hreport).
  apply (Hreport eq_refl).
Defined.

(** The statement without its two conditions fails twice.  A relative
    URI without a base that an ignore pattern matches is not reported:
    the ignore list is consulted first.  And a [baseURI] set to the empty
    string is not the base: the path of the file is. *)
Lemma ignored_or_empty_base_refute_unconditioned :
  ~ (forall (L : NodeLibs) (getFilePath : option string) (opts : Options)
            (item : URIOccurrence) (w : World) (h : list Event),
        isRelative (occ_uri item) = true ->
        checkRelative opts = true ->
        truthy (js_or (baseURI opts) getFilePath) = false ->
        reports_of (snd (exec w (lint getFilePath opts item) h))
        = (reports_of h
             ++ [(occ_node item,
                  {| err_message := UNRESOLVED_MESSAGE;
                     err_index := occ_index item;
                     err_fix := None |})])%list)
  /\ ~ (forall (L : NodeLibs) (getFilePath : option string) (opts : Options)
               (item : URIOccurrence) (b : string) (w : World)
               (h : list Event),
          isIgnored (occ_uri item) (ignore opts) = false ->
          isRelative (occ_uri item) = true ->
          checkRelative opts = true ->
          baseURI opts = Some b ->
          exec w (lint getFilePath opts item) h
          = exec w (lint_probe opts (occ_node item)
                               (URL_resolve b (occ_uri item))
                               (occ_index item)) h).
Proof.
  split.
  - intros Hall.
    specialize (Hall toy_libs None ignore_new relative_item
                     (constant_world (Fulfilled arrived) (Fulfilled tt)) []
                     eq_refl eq_refl eq_refl).
    discriminate Hall.
  - intros Hall.
    specialize (Hall toy_libs (Some "/docs/") (with_base "") relative_item ""
                     (constant_world (Fulfilled arrived) (Fulfilled tt)) []
                     eq_refl eq_refl eq_refl eq_refl).
    vm_compute in Hall. discriminate Hall.
Qed.

(** [C10] Once a relative URI has been resolved against a base, the
    resolved URI stands for the occurrence: it is what is probed, the
    messages of a dead link and of a redirect name it, and the fix of a
    redirect replaces the range from the offset to the offset plus the
    length of the resolved URI, a length that differs from that of the
    relative text whenever the two strings differ in length. *)
Theorem resolved_uri_stands_for_occurrence
        {L : NodeLibs} (w : World) (getFilePath : option string)
        (opts : Options) (item : URIOccurrence) (h : list Event) :
  let uri := occ_uri item in
  let node := occ_node item in
  let index := occ_index item in
  let base := js_or (baseURI opts) getFilePath in
  let resolved := URL_resolve (string_value base) uri in
  isIgnored uri (ignore opts) = false ->
  isRelative uri = true ->
  checkRelative opts = true ->
  truthy base = true ->
  exists (result : AliveResult) (probes reported : list Event),
    exec w (probe_of opts resolved) h = (Returned result, (h ++ probes)%list)
    /\ exec w (lint getFilePath opts item) h
       = (Returned tt, ((h ++ probes) ++ reported)%list)
    /\ reported
       = (if negb (ok result) then
            [EvReport node
               {| err_message :=
                    resolved ++ " is dead. ("
                             ++ template (message result) ++ ")";
                  err_index := index;
                  err_fix := None |}]
          else if redirected result then
            [EvReport node
               {| err_message :=
                    resolved ++ " is redirected to "
                             ++ template (redirectTo result) ++ ". ("
                             ++ template (message result) ++ ")";
                  err_index := index;
                  err_fix :=
                    Some (replaceTextRange
                            index
                            (index + Z.of_nat (String.length resolved))
                            (template (redirectTo result))) |}]
          else [])
    /\ (String.length resolved <> String.length uri ->
        forall (n : TxtNode) (err : RuleError) (fx : Fix),
          In (EvReport n err) reported ->
          err_fix err = Some fx ->
          rangeStart fx = index
          /\ rangeEnd fx - rangeStart fx <> Z.of_nat (String.length uri)).
Proof.
  intros uri node index base resolved Hi Hr Hc Hb.
  assert (Hlint : lint getFilePath opts item
                  = lint_probe opts node resolved index)
    by (apply lint_resolved; assumption).
  destruct (probe_of_returns w opts resolved h) as (result & probes & Hp & _).
  exists result, probes. eexists. split; [exact Hp |].
  split; [| split; [reflexivity |]].
  - rewrite Hlint, exec_lint_probe, Hp.
    destruct (ok result); cbn [negb].
    + destruct (redirected result); [reflexivity |].
      rewrite app_nil_r. reflexivity.
    + reflexivity.
  - intros Hlen n err fx Hin Hfix.
    destruct (ok result); cbn [negb] in Hin.
    + destruct (redirected result); [| contradiction].
      destruct Hin as [Hin | []]. inversion Hin; subst n err.
      cbn [err_fix] in Hfix. inversion Hfix; subst fx.
      cbn [rangeStart rangeEnd]. split; [reflexivity | lia].
    + destruct Hin as [Hin | []]. inversion Hin; subst n err.
      cbn [err_fix] in Hfix. discriminate.
Qed.

Lemma resolved_uri_stands_for_occurrence_witness :
  String.length (URL_resolve (NodeLibs := toy_libs) "http://example.com/" "./new")
  <> String.length "./new"
  /\ exec (method_world (Fulfilled moved) (Fulfilled arrived)
                        (Fulfilled arrived_elsewhere) (Fulfilled arrived))
          (lint (L := toy_libs) None (with_base "http://example.com/")
                relative_item) []
     = (Returned tt,
        [EvFetch "http://example.com/new" (probe_opts "HEAD") (Fulfilled moved);
         EvFetch "http://example.com/new"
                 (with_redirect (probe_opts "HEAD") "follow")
                 (Fulfilled arrived_elsewhere);
         EvReport relative_node
           {| err_message :=
                "http://example.com/new is redirected to http://example.com/v2/new. (301 Moved Permanently)";
              err_index := 7;
              err_fix :=
                Some (replaceTextRange 7 29 "http://example.com/v2/new") |}]).
Proof.
  split; [discriminate |].
  destruct (resolved_uri_stands_for_occurrence
              (L := toy_libs)
              (method_world (Fulfilled moved) (Fulfilled arrived)
                            (Fulfilled arrived_elsewhere) (Fulfilled arrived))
              None (with_base "http://example.com/") relative_item []
              eq_refl eq_refl eq_refl eq_refl)
    as (result & probes & reported & Hp & Hl & Hr & _).
  rewrite Hl. vm_compute in Hp. inversion Hp; subst result probes.
  subst reported. reflexivity.
Defined.

(** ** The method of the first request *)

Lemma option_string_eqb_eq (a b : option string) :
  option_string_eqb a b = true <-> a = b.
Proof.
  destruct a as [x |], b as [y |]; simpl;
    rewrite ?String.eqb_eq; split; congruence.
Qed.

Lemma filter_nonempty {T : Type} (f : T -> bool) (l : list T) :
  (0 <? List.length (filter f l))%nat = true
  <-> exists x, In x l /\ f x = true.
Proof.
  rewrite Nat.ltb_lt. split.
  - intros Hlen. destruct (filter f l) as [| x rest] eqn:E.
    + simpl in Hlen. lia.
    + exists x. apply filter_In. rewrite E. left. reflexivity.
  - intros (x & Hin & Hf).
    assert (Hx : In x (filter f l)) by (apply filter_In; auto).
    destruct (filter f l); [contradiction | simpl; lia].
Qed.

Lemma select_method_GET {L : NodeLibs} (opts : Options) (uri : string) :
  select_method opts uri = "GET"
  <-> exists origin,
      In origin (preferGET opts) /\ getURLOrigin uri = getURLOrigin origin.
Proof.
  unfold select_method.
  destruct (0 <? _)%nat eqn:E.
  - apply filter_nonempty in E. destruct E as (origin & Hin & Heq).
    apply option_string_eqb_eq in Heq.
    split; [intros _; exists origin; auto | reflexivity].
  - split; [discriminate |]. intros (origin & Hin & Heq). exfalso.
    assert (Hne : (0 <? List.length
                          (filter (fun o => option_string_eqb
                                              (getURLOrigin uri)
                                              (getURLOrigin o))
                                  (preferGET opts)))%nat = true).
    { apply filter_nonempty. exists origin. split; [exact Hin |].
      apply option_string_eqb_eq. exact Heq. }
    congruence.
Qed.

Lemma get_only_no_head (evs : list Event) :
  forallb (requested_with "GET") evs = true ->
  existsb (requested_with "HEAD") evs = false.
Proof.
  induction evs as [| ev evs IH]; [reflexivity |].
  simpl. intros Hall. apply andb_true_iff in Hall. destruct Hall as [Hev Hevs].
  rewrite (IH Hevs), orb_false_r.
  destruct ev; simpl in *; try discriminate.
  apply String.eqb_eq in Hev. rewrite Hev. reflexivity.
Qed.

(** The first event of a probe is the request with its method, redirects
    not followed; only probes come after it, and after a first request
    with [GET] only requests with [GET]. *)
Lemma isAliveURI_first_request (w : World) (uri m : string) (h : list Event) :
  m = "GET" \/ m = "HEAD" ->
  exists (r : AliveResult) (rest : list Event),
    exec w (isAliveURI uri m) h
    = (Returned r,
       (h ++ EvFetch uri (probe_opts m) (fetch w h uri (probe_opts m))
          :: rest)%list)
    /\ forallb is_probe rest = true
    /\ (m = "GET" -> forallb (requested_with "GET") rest = true).
Proof.
  intros [-> | ->].
  - unfold isAliveURI. rewrite exec_isAliveURI_GET.
    destruct (fetch w h uri (probe_opts "GET")) as [res | ex].
    + cbv zeta. destruct (isRedirect (status res)).
      * destruct (fetch w _ uri _) as [finalRes | ex];
          eexists; eexists; (split; [rewrite <- app_assoc; reflexivity |]);
          split; reflexivity.
      * eexists; exists []. split; [reflexivity |]. split; reflexivity.
    + eexists; exists []. split; [reflexivity |]. split; reflexivity.
  - assert (Hget : forall evs0,
               forallb is_probe evs0 = true ->
               exists r rest,
                 exec w (isAliveURI_fuel 1 uri "GET") (h ++ evs0)%list
                 = (Returned r, (h ++ rest)%list)
                 /\ exists more, rest = (evs0 ++ more)%list
                                 /\ forallb is_probe rest = true).
    { intros evs0 H0. rewrite isAliveURI_fuel_GET.
      destruct (isAliveURI_GET_trace w uri (h ++ evs0)%list)
        as (r & evs & Hr & Hg & _).
      exists r, (evs0 ++ evs)%list. rewrite Hr, app_assoc.
      split; [reflexivity |]. exists evs. split; [reflexivity |].
      rewrite forallb_app, H0. eapply requested_is_probe; eassumption. }
    unfold isAliveURI. rewrite exec_isAliveURI_HEAD.
    destruct (fetch w h uri (probe_opts "HEAD")) as [res | ex].
    + cbv zeta. destruct (isRedirect (status res)).
      * destruct (fetch w _ uri _) as [finalRes | ex].
        -- eexists; eexists. rewrite <- app_assoc.
           split; [reflexivity |]. split; [reflexivity | discriminate].
        -- rewrite <- app_assoc.
           destruct (Hget [EvFetch uri (probe_opts "HEAD") (Fulfilled res);
                           EvFetch uri (follow_opts "HEAD") (Rejected ex)]
                          eq_refl)
             as (r & rest & Hr & more & -> & Hp).
           exists r. eexists. split; [exact Hr |].
           split; [exact Hp | discriminate].
      * destruct (Response_ok res).
        -- eexists; exists []. split; [reflexivity |].
           split; [reflexivity | discriminate].
        -- destruct (Hget [EvFetch uri (probe_opts "HEAD") (Fulfilled res)]
                          eq_refl)
             as (r & rest & Hr & more & -> & Hp).
           exists r. eexists. split; [exact Hr |].
           split; [exact Hp | discriminate].
    + destruct (Hget [EvFetch uri (probe_opts "HEAD") (Rejected ex)] eq_refl)
        as (r & rest & Hr & more & -> & Hp).
      exists r. eexists. split; [exact Hr |].
      split; [exact Hp | discriminate].
Qed.

(** The check of a remote URI starts with the request of the selected
    method. *)
Lemma lint_probe_first_request {L : NodeLibs} (w : World) (opts : Options)
      (node : TxtNode) (uri : string) (index : Z) (h : list Event) :
  isLocal uri = false ->
  exists rest : list Event,
    exec w (lint_probe opts node uri index) h
    = (Returned tt,
       (h ++ EvFetch uri (probe_opts (select_method opts uri))
                     (fetch w h uri (probe_opts (select_method opts uri)))
          :: rest)%list)
    /\ (select_method opts uri = "GET" ->
        existsb (requested_with "HEAD") rest = false).
Proof.
  intros Hl. rewrite exec_lint_probe. unfold probe_of. rewrite Hl.
  destruct (isAliveURI_first_request w uri (select_method opts uri) h
                                     (select_method_cases opts uri))
    as (r & rest & -> & Hp & Hg).
  assert (Hno : forall tail,
             existsb (requested_with "HEAD") tail = false ->
             select_method opts uri = "GET" ->
             existsb (requested_with "HEAD") (rest ++ tail) = false).
  { intros tail Ht Hm. rewrite existsb_app, Ht.
    rewrite (get_only_no_head rest (Hg Hm)). reflexivity. }
  destruct (negb (ok r)).
  - eexists. rewrite <- app_assoc, <- app_comm_cons.
    split; [reflexivity |]. apply Hno. reflexivity.
  - destruct (redirected r).
    + eexists. rewrite <- app_assoc, <- app_comm_cons.
      split; [reflexivity |]. apply Hno. reflexivity.
    + exists rest. split; [reflexivity |].
      intros Hm. apply get_only_no_head, Hg, Hm.
Qed.

(** [C6] The first request of a remote URI is made with [HEAD], unless
    the origin of the URI is equal to the origin of some entry of
    [preferGET]: then, and only then, it is made with [GET], and no
    request with [HEAD] is made at all.  Only the origin of the URI takes
    part: two URIs of one origin get the same method.  The check that
    [lint] makes of a remote URI starts with the request of that method,
    redirects not followed. *)
Theorem method_selected_by_origin
        {L : NodeLibs} (opts : Options) (uri : string) :
  (select_method opts uri = "GET"
   <-> exists origin,
       In origin (preferGET opts) /\ getURLOrigin uri = getURLOrigin origin)
  /\ (select_method opts uri = "HEAD"
      <-> ~ exists origin,
            In origin (preferGET opts)
            /\ getURLOrigin uri = getURLOrigin origin)
  /\ select_method DEFAULT_OPTIONS uri = "HEAD"
  /\ (forall uri' : string,
        getURLOrigin uri' = getURLOrigin uri ->
        select_method opts uri' = select_method opts uri)
  /\ (isLocal uri = false ->
      probe_of opts uri = isAliveURI uri (select_method opts uri))
  /\ (select_method opts uri = "GET" ->
      forall (w : World) (h : list Event),
      exists (r : AliveResult) (evs : list Event),
        exec w (isAliveURI uri (select_method opts uri)) h
        = (Returned r, (h ++ evs)%list)
        /\ forallb (requested_with "GET") evs = true
        /\ existsb (requested_with "HEAD") evs = false)
  /\ (isLocal uri = false ->
      forall (w : World) (node : TxtNode) (index : Z) (h : list Event),
      exists rest : list Event,
        exec w (lint_probe opts node uri index) h
        = (Returned tt,
           (h ++ EvFetch uri
                   {| method := select_method opts uri; compress := false;
                      redirect := "manual" |}
                   (fetch w h uri (probe_opts (select_method opts uri)))
              :: rest)%list)
        /\ (select_method opts uri = "GET" ->
            existsb (requested_with "HEAD") rest = false))
  /\ (isLocal uri = false ->
      forall (w : World) (getFilePath : option string)
             (item : URIOccurrence) (h : list Event),
        occ_uri item = uri ->
        isIgnored uri (ignore opts) = false ->
        exists rest : list Event,
          exec w (lint getFilePath opts item) h
          = (Returned tt,
             (h ++ EvFetch uri
                     {| method := select_method opts uri; compress := false;
                        redirect := "manual" |}
                     (fetch w h uri (probe_opts (select_method opts uri)))
                :: rest)%list)
          /\ (select_method opts uri = "GET" ->
              existsb (requested_with "HEAD") rest = false)
          /\ (preferGET opts = [] -> select_method opts uri = "HEAD")).
Proof.
  pose proof (select_method_GET opts uri) as Hget.
  split; [exact Hget |]. split; [| split; [reflexivity |]].
  - rewrite <- Hget.
    destruct (select_method_cases opts uri) as [-> | ->];
      split; congruence.
  - split; [| split; [| split; [| split]]].
    + intros uri' Heq. unfold select_method. rewrite Heq. reflexivity.
    + intros Hl. unfold probe_of. rewrite Hl. reflexivity.
    + intros Hm w h. rewrite Hm.
      destruct (isAliveURI_GET_trace w uri h) as (r & evs & Hr & Hall & _).
      exists r, evs. split; [exact Hr |]. split; [exact Hall |].
      apply get_only_no_head. exact Hall.
    + intros Hl w node index h.
      apply (lint_probe_first_request w opts node uri index h Hl).
    + intros Hl w getFilePath item h Hu Hi. subst uri.
      rewrite lint_absolute by (auto using remote_not_relative).
      destruct (lint_probe_first_request w opts (occ_node item)
                                         (occ_uri item) (occ_index item) h Hl)
        as (rest & He & Hno).
      exists rest. split; [exact He |]. split; [exact Hno |].
      intros Hp. unfold select_method. rewrite Hp. reflexivity.
Qed.

Lemma method_selected_by_origin_witness :
  select_method (L := toy_libs) (prefer_get ["https://example.com"])
                "https://example.com/path" = "GET"
  /\ select_method (L := toy_libs) (prefer_get ["https://example.com"])
                   "https://example.org/path" = "HEAD"
  /\ (exists (r : AliveResult) (evs : list Event),
      exec (method_world (Rejected (mkError "HEAD refused"))
                         (Fulfilled arrived) (Fulfilled arrived)
                         (Fulfilled arrived))
           (isAliveURI "https://example.com/path"
                       (select_method (L := toy_libs)
                                      (prefer_get ["https://example.com"])
                                      "https://example.com/path")) []
      = (Returned r, ([] ++ evs)%list)
      /\ forallb (requested_with "GET") evs = true
      /\ existsb (requested_with "HEAD") evs = false)
  /\ exists rest : list Event,
      exec (method_world (Fulfilled arrived)
                         (Rejected (mkError "GET refused"))
                         (Fulfilled arrived) (Fulfilled arrived))
           (lint (L := toy_libs) None (prefer_get ["https://example.com"])
                 {| occ_node := sample_node;
                    occ_uri := "https://example.com/path";
                    occ_index := 7 |}) []
      = (Returned tt,
         ([] ++ EvFetch "https://example.com/path" (probe_opts "GET")
                        (Rejected (mkError "GET refused"))
             :: rest)%list)
      /\ existsb (requested_with "HEAD") rest = false.
Proof.
  destruct (method_selected_by_origin
              (L := toy_libs) (prefer_get ["https://example.com"])
              "https://example.com/path")
    as (Hget & _ & _ & _ & _ & Hno & _ & Hlint).
  assert (Hm : select_method (L := toy_libs)
                             (prefer_get ["https://example.com"])
                             "https://example.com/path" = "GET").
  { apply Hget. exists "https://example.com".
    split; [left; reflexivity | reflexivity]. }
  split; [exact Hm |]. split; [reflexivity |]. split; [apply (Hno Hm) |].
  destruct (Hlint eq_refl
                  (method_world (Fulfilled arrived)
                                (Rejected (mkError "GET refused"))
                                (Fulfilled arrived) (Fulfilled arrived))
                  None
                  {| occ_node := sample_node;
                     occ_uri := "https://example.com/path";
                     occ_index := 7 |}
                  [] eq_refl eq_refl)
    as (rest & He & Hnohead & _).
  exists rest. split; [exact He | exact (Hnohead Hm)].
Defined.

(** ** Classification *)

(** [C8] A URI is relative exactly when the host of the parsed URI is
    absent or empty; it is local exactly when it is an absolute path or
    relative; a URI with a non-empty host that is not an absolute path is
    remote. *)
Theorem classification_by_host_and_path {L : NodeLibs} (uri : string) :
  (isRelative uri = true
   <-> URL_parse_host uri = None \/ URL_parse_host uri = Some "")
  /\ (isLocal uri = true <-> isAbsolute uri = true \/ isRelative uri = true)
  /\ (forall host : string,
        URL_parse_host uri = Some host -> host <> "" ->
        isAbsolute uri = false ->
        isLocal uri = false).
Proof.
  assert (Hrel : isRelative uri = true
                 <-> URL_parse_host uri = None \/ URL_parse_host uri = Some "").
  { unfold isRelative. cbv zeta.
    rewrite orb_true_iff, !option_string_eqb_eq. reflexivity. }
  split; [exact Hrel |]. split.
  - unfold isLocal. destruct (isAbsolute uri); intuition congruence.
  - intros host Hh Hne Ha. unfold isLocal. rewrite Ha.
    apply not_true_is_false. intros E.
    apply Hrel in E. destruct E as [E | E]; congruence.
Qed.

Lemma classification_by_host_and_path_witness :
  isLocal (L := toy_libs) "http://example.com/old" = false
  /\ isLocal (L := toy_libs) "./new" = true
  /\ isLocal (L := toy_libs) "/tmp/notes.md" = true.
Proof.
  destruct (classification_by_host_and_path
              (L := toy_libs) "http://example.com/old") as (_ & _ & Hremote).
  split; [| split; reflexivity].
  apply (Hremote "example.com" eq_refl); [discriminate | reflexivity].
Defined.

(** ** Local files, checked once *)

(** What [stripQueryFragment] removes is nothing, or starts at a [?] or
    a [#]. *)
Lemma stripQueryFragment_splits (s : string) :
  exists suffix : string,
    s = stripQueryFragment s ++ suffix
    /\ (suffix = ""
        \/ exists rest, suffix = String "?" rest \/ suffix = String "#" rest).
Proof.
  induction s as [| c s IH]; simpl.
  - exists "". auto.
  - destruct (((c =? "?")%char || (c =? "#")%char)
              && negb (hasLineTerminator s)) eqn:E.
    + exists (String c s). split; [reflexivity |]. right. exists s.
      apply andb_true_iff in E. destruct E as [E _].
      apply orb_true_iff in E.
      destruct E as [E | E]; apply Ascii.eqb_eq in E; subst c; auto.
    + destruct IH as (suffix & Heq & Hs). exists suffix. simpl.
      split; [congruence | exact Hs].
Qed.

(** On a string without line terminators, what it keeps has neither [?]
    nor [#]. *)
Lemma stripQueryFragment_clean (s : string) :
  hasLineTerminator s = false ->
  forall c : ascii,
    In c (list_ascii_of_string (stripQueryFragment s)) ->
    c <> "?"%char /\ c <> "#"%char.
Proof.
  induction s as [| a s IH]; simpl; [intros _ c [] |].
  rewrite orb_false_iff. intros [_ Hs] c. rewrite Hs, andb_true_r.
  destruct ((a =? "?")%char || (a =? "#")%char) eqn:E; simpl; [intros [] |].
  apply orb_false_iff in E. destruct E as [E1 E2].
  apply Ascii.eqb_neq in E1. apply Ascii.eqb_neq in E2.
  intros [<- | Hin]; [split; assumption | apply IH; assumption].
Qed.

(** [C9] The probe of a local URI removes the query or fragment that
    ends the path and asks the file system once, with no second attempt:
    if the access succeeds the result is ok, and nothing is reported; if
    it fails the result is not ok, its message is the text of the access
    error, and [lint] reports the link as dead with that text. *)
Theorem local_file_accessed_once
        {L : NodeLibs} (w : World) (opts : Options) (node : TxtNode)
        (uri : string) (index : Z) (h : list Event) :
  let path := stripQueryFragment uri in
  (exists suffix : string,
      uri = path ++ suffix
      /\ (suffix = ""
          \/ exists rest,
            suffix = String "?" rest \/ suffix = String "#" rest))
  /\ (hasLineTerminator uri = false ->
      forall c : ascii,
        In c (list_ascii_of_string path) -> c <> "?"%char /\ c <> "#"%char)
  /\ exec w (isAliveLocalFile uri) h
     = match fs_access w h path with
       | Fulfilled u =>
         (Returned {| ok := true; redirected := false; redirectTo := None;
                      message := None |},
          (h ++ [EvAccess path (Fulfilled u)])%list)
       | Rejected ex =>
         (Returned {| ok := false; redirected := false; redirectTo := None;
                      message := Some (ex_message ex) |},
          (h ++ [EvAccess path (Rejected ex)])%list)
       end
  /\ (isLocal uri = true ->
      exec w (lint_probe opts node uri index) h
      = match fs_access w h path with
        | Fulfilled u =>
          (Returned tt, (h ++ [EvAccess path (Fulfilled u)])%list)
        | Rejected ex =>
          (Returned tt,
           (h ++ [EvAccess path (Rejected ex);
                  EvReport node
                    {| err_message :=
                         uri ++ " is dead. (" ++ ex_message ex ++ ")";
                       err_index := index;
                       err_fix := None |}])%list)
        end).
Proof.
  intros path. split; [apply stripQueryFragment_splits |].
  split; [apply stripQueryFragment_clean |].
  split; [apply exec_isAliveLocalFile |].
  intros Hl. rewrite exec_lint_probe. unfold probe_of. rewrite Hl.
  rewrite exec_isAliveLocalFile. cbv zeta. fold path.
  destruct (fs_access w h path) as [u | ex]; cbn [ok negb redirected].
  - reflexivity.
  - cbn [message template]. rewrite <- app_assoc. reflexivity.
Qed.

Lemma local_file_accessed_once_witness :
  exec (constant_world (Fulfilled arrived) (Rejected (mkError "ENOENT")))
       (lint_probe (L := toy_libs) DEFAULT_OPTIONS (occ_node local_item)
                   "/tmp/notes.md#top" 8) []
  = (Returned tt,
     [EvAccess "/tmp/notes.md" (Rejected (mkError "ENOENT"));
      EvReport (occ_node local_item)
        {| err_message := "/tmp/notes.md#top is dead. (ENOENT)";
           err_index := 8;
           err_fix := None |}]).
Proof.
  destruct (local_file_accessed_once
              (L := toy_libs)
              (constant_world (Fulfilled arrived) (Rejected (mkError "ENOENT")))
              DEFAULT_OPTIONS (occ_node local_item) "/tmp/notes.md#top" 8 [])
    as (_ & _ & _ & Hlint).
  exact (Hlint eq_refl).
Defined.

(** ** The offset of a link *)

(** The fallback of [indexOf(...) || 0] never applies: 0 is the only
    falsy position, and -1 is truthy. *)
Lemma js_or_num_zero (n : Z) : js_or_num n 0 = n.
Proof.
  unfold js_or_num, truthy_num. destruct (n =? 0) eqn:E; simpl; [| reflexivity].
  apply Z.eqb_eq in E. congruence.
Qed.

(** [C4] The offset of a link is the position of its URL in its source
    text.  When the URL is not in the source text, the offset is -1: the
    fallback to 0 does not apply to it. *)
Theorem link_offset_is_indexOf
        (URIs : list URIOccurrence) (node : TxtNode) (u : string) :
  isChildNode node [BlockQuote] = false ->
  node_url node = Some u ->
  (forall n : nat,
      index 0 u (raw node) = Some n ->
      substring n (String.length u) (raw node) = u
      /\ Link_handler URIs node
         = (URIs ++ [ {| occ_node := node; occ_uri := u;
                         occ_index := Z.of_nat n |} ])%list)
  /\ (index 0 u (raw node) = None ->
      Link_handler URIs node
      = (URIs ++ [ {| occ_node := node; occ_uri := u;
                      occ_index := -1 |} ])%list).
Proof.
  intros Hq Hu. unfold Link_handler. rewrite Hq, Hu, js_or_num_zero.
  unfold indexOf. split.
  - intros n Hn. rewrite Hn. split; [| reflexivity].
    apply (index_correct1 0 n u (raw node) Hn).
  - intros Hn. rewrite Hn. reflexivity.
Qed.

Lemma link_offset_is_indexOf_witness :
  Link_handler [] reference_link
  = [ {| occ_node := reference_link; occ_uri := "http://example.com/";
         occ_index := -1 |} ]
  /\ Link_handler [] sample_node = [ sample_item ].
Proof.
  split.
  - destruct (link_offset_is_indexOf [] reference_link "http://example.com/"
                                     eq_refl eq_refl) as [_ Hmissing].
    apply (Hmissing eq_refl).
  - destruct (link_offset_is_indexOf [] sample_node "http://example.com/old"
                                     eq_refl eq_refl) as [Hfound _].
    apply (Hfound 7%nat eq_refl).
Defined.

(** ** All checks, side by side *)

Lemma Settles_le {A : Type} (n m : nat) (p : Prog A) :
  Settles n p -> (n <= m)%nat -> Settles m p.
Proof.
  intros Hs. revert m.
  induction Hs as [n a | n uri o k _ IH | n path k _ IH | n node err k _ IH];
    intros m Hle; try constructor;
    (destruct m as [| m]; [lia |]); constructor; intros;
    apply IH; lia.
Qed.

Lemma Settles_bind {A B : Type} (n m : nat) (p : Prog A) (f : A -> Prog B) :
  Settles n p -> (forall a, Settles m (f a)) -> Settles (n + m) (bind p f).
Proof.
  intros Hs Hf.
  induction Hs as [n a | n uri o k _ IH | n path k _ IH | n node err k _ IH];
    simpl.
  - apply Settles_le with (n := m); [apply Hf | lia].
  - constructor. exact IH.
  - constructor. exact IH.
  - constructor. exact IH.
Qed.

(** A probe with [GET] returns after two requests at most. *)
Lemma isAliveURI_GET_settles (n : nat) (uri : string) :
  Settles 2 (isAliveURI_fuel (S n) uri "GET").
Proof.
  simpl. constructor. intros [res | ex]; simpl; [| constructor].
  destruct (isRedirect (status res)); simpl.
  - constructor. intros [finalRes | ex]; simpl; constructor.
  - rewrite andb_false_r. constructor.
Qed.

(** A probe with [HEAD] returns after four requests at most. *)
Lemma isAliveURI_HEAD_settles_after (k : nat) (uri : string) :
  Settles 2 (isAliveURI_fuel k uri "GET") ->
  Settles 4 (isAliveURI_fuel (S k) uri "HEAD").
Proof.
  intros Hget.
  assert (Hget3 : Settles 3 (isAliveURI_fuel k uri "GET"))
    by (apply Settles_le with (n := 2%nat); [exact Hget | lia]).
  simpl. constructor. intros [res | ex]; simpl; [| exact Hget3].
  destruct (isRedirect (status res)); simpl.
  - constructor. intros [finalRes | ex]; simpl; [constructor | exact Hget].
  - destruct (negb (Response_ok res) && true); simpl;
      [exact Hget3 | constructor].
Qed.

Lemma isAliveURI_HEAD_settles (uri : string) :
  Settles 4 (isAliveURI uri "HEAD").
Proof.
  apply isAliveURI_HEAD_settles_after, isAliveURI_GET_settles.
Qed.

Section Batch.
Context {L : NodeLibs}.
Variable getFilePath : option string.
Variable opts : Options.

Lemma probe_of_settles (uri : string) : Settles 4 (probe_of opts uri).
Proof.
  unfold probe_of. destruct (isLocal uri).
  - unfold isAliveLocalFile, await_access. simpl. constructor.
    intros [u | ex]; simpl; constructor.
  - destruct (select_method_cases opts uri) as [-> | ->].
    + apply Settles_le with (n := 2%nat);
        [apply isAliveURI_GET_settles | lia].
    + apply isAliveURI_HEAD_settles.
Qed.

Lemma lint_probe_settles (node : TxtNode) (uri : string) (index : Z) :
  Settles 5 (lint_probe opts node uri index).
Proof.
  unfold lint_probe. cbv zeta. fold (probe_of opts uri).
  change 5%nat with (4 + 1)%nat. apply Settles_bind.
  - apply probe_of_settles.
  - intros result. destruct (negb (ok result)).
    + repeat constructor.
    + destruct (redirected result); repeat constructor.
Qed.

(** A check never throws: it returns after five steps at most. *)
Lemma lint_settles (item : URIOccurrence) :
  Settles 5 (lint getFilePath opts item).
Proof.
  unfold lint. cbv zeta.
  destruct (isIgnored _ _); [constructor |].
  destruct (isRelative _); [| apply lint_probe_settles].
  destruct (negb (checkRelative opts)); [constructor |].
  destruct (negb (truthy _)); [repeat constructor |].
  apply lint_probe_settles.
Qed.

End Batch.

(** A step of a program that settles within [n] steps leaves a program
    that settles within one step less. *)
Lemma tstep_settles {A : Type} (n : nat) (p q : Prog A) (ev : Event) :
  Settles n p -> tstep p ev q -> exists n', n = S n' /\ Settles n' q.
Proof.
  intros Hs Ht. destruct Ht; inversion Hs; subst; eauto.
Qed.

Lemma pstep_settles {A : Type} (ns : list nat) (pool pool' : list (Prog A))
      (lab : nat * Event) :
  Forall2 Settles ns pool -> pstep pool lab pool' ->
  exists ns', Forall2 Settles ns' pool' /\ list_sum ns = S (list_sum ns').
Proof.
  intros Hall Hstep. destruct Hstep as [before p ev q after Ht].
  apply Forall2_app_inv_r in Hall.
  destruct Hall as (ns1 & ns2 & H1 & H2 & ->).
  inversion H2 as [| n p0 ns3 after0 Hp Hafter]; subst.
  destruct (tstep_settles n p q ev Hp Ht) as (n' & -> & Hq).
  exists (ns1 ++ n' :: ns3)%list. split.
  - apply Forall2_app; [exact H1 | constructor; assumption].
  - rewrite !list_sum_app. simpl. lia.
Qed.

Lemma psteps_settles {A : Type} (pool pool' : list (Prog A))
      (labs : list (nat * Event)) :
  psteps pool labs pool' ->
  forall ns, Forall2 Settles ns pool ->
  exists ns', Forall2 Settles ns' pool'
              /\ list_sum ns = (List.length labs + list_sum ns')%nat.
Proof.
  induction 1 as [pool | pool lab pool1 labs pool2 Hstep _ IH]; intros ns Hall.
  - exists ns. split; [exact Hall | reflexivity].
  - destruct (pstep_settles ns pool pool1 lab Hall Hstep) as (ns1 & H1 & Hsum).
    destruct (IH ns1 H1) as (ns2 & H2 & Hsum2).
    exists ns2. split; [exact H2 | simpl; lia].
Qed.

(** Each promise of the pool takes its own steps, whatever the others
    do. *)
Lemma pstep_at_position {A : Type} (pool pool' : list (Prog A))
      (lab : nat * Event) (i : nat) (p : Prog A) :
  pstep pool lab pool' -> nth_error pool i = Some p ->
  exists p', nth_error pool' i = Some p' /\ tsteps p (events_at i [lab]) p'.
Proof.
  intros Hstep Hi. destruct Hstep as [before p0 ev q after Ht].
  unfold events_at. cbn [filter fst].
  destruct (Nat.eqb (List.length before) i) eqn:E.
  - apply Nat.eqb_eq in E. subst i.
    rewrite nth_error_app2 in Hi |- * by lia.
    rewrite Nat.sub_diag in Hi |- *. simpl in Hi. inversion Hi; subst p0.
    exists q. split; [reflexivity |]. simpl.
    econstructor; [exact Ht | constructor].
  - apply Nat.eqb_neq in E. exists p. split; [| constructor].
    destruct (Nat.lt_ge_cases i (List.length before)) as [Hlt | Hge].
    + rewrite nth_error_app1 in Hi |- * by assumption. exact Hi.
    + rewrite nth_error_app2 in Hi |- * by assumption.
      destruct (i - List.length before)%nat as [| j] eqn:Ej; [lia |].
      exact Hi.
Qed.

Lemma tsteps_app {A : Type} (p q r : Prog A) (evs1 evs2 : list Event) :
  tsteps p evs1 q -> tsteps q evs2 r -> tsteps p (evs1 ++ evs2) r.
Proof.
  induction 1; intros H2; simpl; [exact H2 |].
  econstructor; eauto.
Qed.

Lemma psteps_at_position {A : Type} (pool pool' : list (Prog A))
      (labs : list (nat * Event)) :
  psteps pool labs pool' ->
  forall (i : nat) (p : Prog A),
    nth_error pool i = Some p ->
    exists p', nth_error pool' i = Some p' /\ tsteps p (events_at i labs) p'.
Proof.
  induction 1 as [pool | pool lab pool1 labs pool2 Hstep _ IH]; intros i p Hi.
  - exists p. split; [exact Hi | constructor].
  - destruct (pstep_at_position pool pool1 lab i p Hstep Hi) as (p1 & H1 & Ht1).
    destruct (IH i p1 H1) as (p2 & H2 & Ht2).
    exists p2. split; [exact H2 |].
    change (lab :: labs) with ([lab] ++ labs)%list.
    unfold events_at in *. rewrite filter_app, map_app.
    eapply tsteps_app; eassumption.
Qed.

(** A program that settles is not rejected, and can take a step unless
    it has returned. *)
Lemma settles_not_rejected {A : Type} (n : nat) (p : Prog A) :
  Settles n p -> is_rejected p = false.
Proof.
  destruct 1; reflexivity.
Qed.

Lemma settles_progress {A : Type} (n : nat) (p : Prog A) :
  Settles n p -> is_fulfilled p = false ->
  forall (net : Settled Response) (disk : Settled unit),
  exists ev q,
    tstep p ev q
    /\ match ev with
       | EvFetch _ _ out => out = net
       | EvAccess _ out => out = disk
       | EvReport _ _ => True
       end.
Proof.
  intros Hs Hf net disk. destruct Hs; simpl in Hf; try discriminate.
  - exists (EvFetch uri opts net), (k net). split; [constructor | reflexivity].
  - exists (EvAccess path disk), (k disk). split; [constructor | reflexivity].
  - exists (EvReport node err), k. split; [constructor | exact I].
Qed.

Lemma pstep_length {A : Type} (pool pool' : list (Prog A)) (lab : nat * Event) :
  pstep pool lab pool' -> List.length pool' = List.length pool.
Proof.
  destruct 1. rewrite !length_app. reflexivity.
Qed.

Lemma psteps_length {A : Type} (pool pool' : list (Prog A))
      (labs : list (nat * Event)) :
  psteps pool labs pool' -> List.length pool' = List.length pool.
Proof.
  induction 1 as [| pool lab pool1 labs pool2 Hstep _ IH]; [reflexivity |].
  rewrite IH. eapply pstep_length; eassumption.
Qed.

Lemma forallb_false_split {T : Type} (f : T -> bool) (l : list T) :
  forallb f l = false ->
  exists before x after, l = (before ++ x :: after)%list /\ f x = false.
Proof.
  induction l as [| x l IH]; simpl; [discriminate |].
  destruct (f x) eqn:E; simpl.
  - intros Hl. destruct (IH Hl) as (before & y & after & -> & Hy).
    exists (x :: before)%list, y, after. split; [reflexivity | exact Hy].
  - intros _. exists [], x, l. split; [reflexivity | exact E].
Qed.

Lemma settles_pool_not_rejected {A : Type} (ns : list nat)
      (pool : list (Prog A)) :
  Forall2 Settles ns pool -> existsb is_rejected pool = false.
Proof.
  induction 1 as [| n p ns pool Hp _ IH]; simpl; [reflexivity |].
  rewrite (settles_not_rejected n p Hp), IH. reflexivity.
Qed.

Lemma Document_exit_settles {L : NodeLibs} (getFilePath : option string)
      (opts : Options) (URIs : list URIOccurrence) :
  Forall2 Settles (repeat 5%nat (List.length URIs))
          (Document_exit getFilePath opts URIs).
Proof.
  induction URIs as [| item URIs IH]; simpl; constructor;
    [apply lint_settles | exact IH].
Qed.

Lemma list_sum_repeat (n k : nat) : list_sum (repeat n k) = (n * k)%nat.
Proof.
  induction k as [| k IH]; simpl; lia.
Qed.

(** * More of the rule *)

(** ** The requests of a probe *)

(** A probe with a method other than [HEAD], case by case. *)
Lemma exec_isAliveURI_once (w : World) (uri m : string) (n : nat)
      (h : list Event) :
  (m =? "HEAD")%string = false ->
  exec w (isAliveURI_fuel (S n) uri m) h =
  match fetch w h uri (probe_opts m) with
  | Rejected ex =>
    (Returned (failed ex),
     (h ++ [EvFetch uri (probe_opts m) (Rejected ex)])%list)
  | Fulfilled res =>
    let h1 := (h ++ [EvFetch uri (probe_opts m) (Fulfilled res)])%list in
    if isRedirect (status res) then
      match fetch w h1 uri (follow_opts m) with
      | Fulfilled finalRes =>
        (Returned {| ok := Response_ok finalRes; redirected := true;
                     redirectTo := Some (url finalRes);
                     message := Some (status_line res) |},
         (h1 ++ [EvFetch uri (follow_opts m) (Fulfilled finalRes)])%list)
      | Rejected ex =>
        (Returned (failed ex),
         (h1 ++ [EvFetch uri (follow_opts m) (Rejected ex)])%list)
      end
    else
      (Returned {| ok := Response_ok res; redirected := false;
                   redirectTo := None; message := Some (status_line res) |},
       h1)
  end.
Proof.
  intros Hm. unfold follow_opts, failed.
  cbn [isAliveURI_fuel adopt await_fetch bind try_catch exec]. rewrite Hm.
  destruct (fetch w h uri (probe_opts m)) as [res | ex];
    cbn [settle bind try_catch exec]; [| reflexivity].
  cbv zeta. destruct (isRedirect (status res));
    cbn [settle bind try_catch exec].
  - destruct (fetch w _ uri _) as [finalRes | ex];
      cbn [settle bind try_catch exec]; reflexivity.
  - rewrite andb_false_r. reflexivity.
Qed.

Lemma probe_request_manual (uri m : string) (out : Settled Response) :
  probe_request uri m (EvFetch uri (probe_opts m) out) = true.
Proof.
  simpl. rewrite !String.eqb_refl. reflexivity.
Qed.

Lemma probe_request_follow (uri m : string) (out : Settled Response) :
  probe_request uri m (EvFetch uri (follow_opts m) out) = true.
Proof.
  simpl. rewrite !String.eqb_refl. simpl. reflexivity.
Qed.

Lemma probe_request_GET (uri m : string) (evs : list Event) :
  forallb (probe_request uri "GET") evs = true ->
  forallb (probe_request uri m) evs = true.
Proof.
  rewrite !forallb_forall. intros H ev Hin. specialize (H ev Hin).
  destruct ev as [u o out | |]; simpl in *; try discriminate.
  rewrite orb_diag in H.
  apply andb_true_iff in H. destruct H as [H Hr].
  apply andb_true_iff in H. destruct H as [H Hm].
  rewrite H, Hm, Hr, orb_true_r. reflexivity.
Qed.

(** The requests of a probe with a method other than [HEAD]. *)
Lemma isAliveURI_once_requests (w : World) (uri m : string) (k : nat)
      (h : list Event) :
  (m =? "HEAD")%string = false ->
  exists (r : AliveResult) (evs : list Event),
    exec w (isAliveURI_fuel (S k) uri m) h = (Returned r, (h ++ evs)%list)
    /\ forallb (probe_request uri m) evs = true
    /\ forallb (requested_with m) evs = true
    /\ (1 <= List.length evs <= 2)%nat.
Proof.
  intros Hm. rewrite (exec_isAliveURI_once w uri m k h Hm).
  pose proof (probe_request_manual uri m) as Hman.
  pose proof (probe_request_follow uri m) as Hfol.
  assert (Hwith : forall o out,
             method o = m -> requested_with m (EvFetch uri o out) = true).
  { intros o out <-. simpl. apply String.eqb_refl. }
  destruct (fetch w h uri (probe_opts m)) as [res | ex].
  - cbv zeta. destruct (isRedirect (status res)).
    + destruct (fetch w _ uri _) as [finalRes | ex];
        eexists; eexists; (split; [rewrite <- app_assoc; reflexivity |]);
        cbn [forallb List.length app];
        rewrite Hman, Hfol, !Hwith by reflexivity; repeat split; lia.
    + eexists; eexists; (split; [reflexivity |]);
        cbn [forallb List.length];
        rewrite Hman, !Hwith by reflexivity; repeat split; lia.
  - eexists; eexists; (split; [reflexivity |]);
      cbn [forallb List.length];
      rewrite Hman, !Hwith by reflexivity; repeat split; lia.
Qed.

(** [X1] Whatever the world answers, a probe returns a result; it makes one
    to four requests (one or two unless it starts with [HEAD]), every one
    of them to the URI it was given (never to the target of a redirect),
    without compression, with the method it was given or with [GET]. *)
Theorem probe_requests_disciplined (w : World) (uri m : string)
        (h : list Event) :
  exists (r : AliveResult) (evs : list Event),
    exec w (isAliveURI uri m) h = (Returned r, (h ++ evs)%list)
    /\ forallb (probe_request uri m) evs = true
    /\ (1 <= List.length evs <= 4)%nat
    /\ ((m =? "HEAD")%string = false ->
        forallb (requested_with m) evs = true
        /\ (List.length evs <= 2)%nat).
Proof.
  destruct (m =? "HEAD")%string eqn:Hm.
  - apply String.eqb_eq in Hm. subst m.
    assert (Hget : forall evs0,
               forallb (probe_request uri "HEAD") evs0 = true ->
               (List.length evs0 <= 2)%nat ->
               exists r evs,
                 exec w (isAliveURI_fuel 1 uri "GET") (h ++ evs0)%list
                 = (Returned r, (h ++ evs)%list)
                 /\ forallb (probe_request uri "HEAD") evs = true
                 /\ (1 <= List.length evs <= 4)%nat
                 /\ (true = false ->
                     forallb (requested_with "HEAD") evs = true
                     /\ (List.length evs <= 2)%nat)).
    { intros evs0 H0 Hlen.
      destruct (isAliveURI_once_requests w uri "GET" 0 (h ++ evs0)%list
                                         eq_refl)
        as (r & evs & Hr & Hreq & _ & Hn).
      exists r, (evs0 ++ evs)%list. rewrite Hr, app_assoc.
      split; [reflexivity |].
      rewrite forallb_app, H0, (probe_request_GET uri "HEAD" evs Hreq).
      rewrite length_app. repeat split; try lia; discriminate. }
    pose proof (probe_request_manual uri "HEAD") as Hman.
    pose proof (probe_request_follow uri "HEAD") as Hfol.
    unfold isAliveURI. rewrite exec_isAliveURI_HEAD.
    destruct (fetch w h uri (probe_opts "HEAD")) as [res | ex];
      [| apply Hget; cbn [forallb List.length]; [rewrite Hman; reflexivity | lia]].
    cbv zeta. destruct (isRedirect (status res)).
    + destruct (fetch w _ uri _) as [finalRes | ex].
      * eexists; eexists. rewrite <- app_assoc.
        split; [reflexivity |]. cbn [forallb List.length app].
        rewrite Hman, Hfol. repeat split; try lia; discriminate.
      * rewrite <- app_assoc. apply Hget; cbn [forallb List.length app];
          [rewrite Hman, Hfol; reflexivity | lia].
    + destruct (Response_ok res);
        [| apply Hget; cbn [forallb List.length];
           [rewrite Hman; reflexivity | lia]].
      eexists; eexists. split; [reflexivity |].
      cbn [forallb List.length]. rewrite Hman.
      repeat split; try lia; discriminate.
  - destruct (isAliveURI_once_requests w uri m 1 h Hm)
      as (r & evs & Hr & Hreq & Hwith & Hn).
    exists r, evs. unfold isAliveURI. rewrite Hr.
    repeat split; auto; lia.
Qed.

Lemma probe_requests_disciplined_witness :
  exists (r : AliveResult) (evs : list Event),
    exec (method_world (Rejected (mkError "HEAD refused")) (Fulfilled moved)
                       (Fulfilled arrived) (Fulfilled arrived_elsewhere))
         (isAliveURI "http://example.com/old" "GET") []
    = (Returned r, ([] ++ evs)%list)
    /\ forallb (requested_with "GET") evs = true
    /\ (List.length evs <= 2)%nat.
Proof.
  destruct (probe_requests_disciplined
              (method_world (Rejected (mkError "HEAD refused"))
                            (Fulfilled moved) (Fulfilled arrived)
                            (Fulfilled arrived_elsewhere))
              "http://example.com/old" "GET" [])
    as (r & evs & Hr & _ & _ & Honce).
  exists r, evs. split; [exact Hr |]. exact (Honce eq_refl).
Defined.

(** ** Redirects that do not end well *)

(** [X2] A redirect whose final response is not successful is reported as a
    dead link, with the status line of the redirect, and without a fix.
    The probe is not started over with [GET], whatever its method. *)
Theorem redirect_to_dead_target_reported_dead
        {L : NodeLibs} (w : World) (opts : Options) (node : TxtNode)
        (uri m : string) (index : Z) (h : list Event)
        (res finalRes : Response) :
  let first := EvFetch uri (probe_opts m) (Fulfilled res) in
  let second := EvFetch uri (follow_opts m) (Fulfilled finalRes) in
  fetch w h uri (probe_opts m) = Fulfilled res ->
  isRedirect (status res) = true ->
  fetch w (h ++ [first]) uri (follow_opts m) = Fulfilled finalRes ->
  Response_ok finalRes = false ->
  isLocal uri = false ->
  select_method opts uri = m ->
  exec w (lint_probe opts node uri index) h
  = (Returned tt,
     (h ++ [first; second;
            EvReport node
              {| err_message :=
                   uri ++ " is dead. ("
                       ++ (Number_toString (status res) ++ " "
                             ++ statusText res) ++ ")";
                 err_index := index;
                 err_fix := None |}])%list).
Proof.
  intros first second H1 Hred H2 Hno Hl Hm.
  rewrite exec_lint_probe. unfold probe_of. rewrite Hl, Hm.
  rewrite (probe_redirect_followed w uri m h res finalRes H1 Hred H2).
  cbn [ok message template]. rewrite Hno. cbn [negb].
  rewrite <- app_assoc. reflexivity.
Qed.

Lemma redirect_to_dead_target_reported_dead_witness :
  exec (method_world (Fulfilled moved) (Fulfilled arrived)
                     (Fulfilled {| status := 404; statusText := "Not Found";
                                   url := "http://example.com/new" |})
                     (Fulfilled arrived))
       (lint_probe (L := toy_libs) DEFAULT_OPTIONS sample_node
                   "http://example.com/old" 7) []
  = (Returned tt,
     [EvFetch "http://example.com/old" (probe_opts "HEAD") (Fulfilled moved);
      EvFetch "http://example.com/old" (follow_opts "HEAD")
              (Fulfilled {| status := 404; statusText := "Not Found";
                            url := "http://example.com/new" |});
      EvReport sample_node
        {| err_message :=
             "http://example.com/old is dead. (301 Moved Permanently)";
           err_index := 7;
           err_fix := None |}]).
Proof.
  exact (redirect_to_dead_target_reported_dead
           (L := toy_libs)
           (method_world (Fulfilled moved) (Fulfilled arrived)
                         (Fulfilled {| status := 404;
                                       statusText := "Not Found";
                                       url := "http://example.com/new" |})
                         (Fulfilled arrived))
           DEFAULT_OPTIONS sample_node "http://example.com/old" "HEAD" 7 []
           moved _ eq_refl eq_refl eq_refl eq_refl eq_refl eq_refl).
Defined.

(** [X3] When the request that follows a redirect throws: a probe with
    [HEAD] starts over with [GET]; a probe with another method gives a
    result that is not ok, is not marked as redirected, and whose message
    is the text of the exception. *)
Theorem redirect_follow_failure
        (w : World) (uri m : string) (h : list Event)
        (res : Response) (ex : JsError) :
  let first := EvFetch uri (probe_opts m) (Fulfilled res) in
  let second := EvFetch uri (follow_opts m) (Rejected ex) in
  fetch w h uri (probe_opts m) = Fulfilled res ->
  isRedirect (status res) = true ->
  fetch w (h ++ [first]) uri (follow_opts m) = Rejected ex ->
  (m = "HEAD" ->
   exec w (isAliveURI uri m) h
   = exec w (isAliveURI uri "GET") (h ++ [first; second])%list)
  /\ (m <> "HEAD" ->
      exec w (isAliveURI uri m) h
      = (Returned {| ok := false; redirected := false; redirectTo := None;
                     message := Some (ex_message ex) |},
         (h ++ [first; second])%list)).
Proof.
  intros first second H1 Hred H2. subst first second. split.
  - intros ->. unfold isAliveURI at 1.
    rewrite exec_isAliveURI_HEAD, H1. cbv zeta. rewrite Hred, H2.
    rewrite <- app_assoc. apply isAliveURI_fuel_GET.
  - intros Hm. apply String.eqb_neq in Hm. unfold isAliveURI.
    rewrite (exec_isAliveURI_once w uri m 1 h Hm), H1. cbv zeta.
    rewrite Hred, H2, <- app_assoc. reflexivity.
Qed.

Lemma redirect_follow_failure_witness :
  exec (method_world (Fulfilled moved) (Fulfilled moved)
                     (Rejected (mkError "too many redirects"))
                     (Rejected (mkError "socket hang up")))
       (isAliveURI "http://example.com/old" "HEAD") []
  = (Returned {| ok := false; redirected := false; redirectTo := None;
                 message := Some "socket hang up" |},
     [EvFetch "http://example.com/old" (probe_opts "HEAD") (Fulfilled moved);
      EvFetch "http://example.com/old" (follow_opts "HEAD")
              (Rejected (mkError "too many redirects"));
      EvFetch "http://example.com/old" (probe_opts "GET") (Fulfilled moved);
      EvFetch "http://example.com/old" (follow_opts "GET")
              (Rejected (mkError "socket hang up"))]).
Proof.
  destruct (redirect_follow_failure
              (method_world (Fulfilled moved) (Fulfilled moved)
                            (Rejected (mkError "too many redirects"))
                            (Rejected (mkError "socket hang up")))
              "http://example.com/old" "HEAD" [] moved
              (mkError "too many redirects") eq_refl eq_refl eq_refl)
    as [Hhead _].
  rewrite (Hhead eq_refl).
  destruct (redirect_follow_failure
              (method_world (Fulfilled moved) (Fulfilled moved)
                            (Rejected (mkError "too many redirects"))
                            (Rejected (mkError "socket hang up")))
              "http://example.com/old" "GET"
              [EvFetch "http://example.com/old" (probe_opts "HEAD")
                       (Fulfilled moved);
               EvFetch "http://example.com/old" (follow_opts "HEAD")
                       (Rejected (mkError "too many redirects"))]
              moved (mkError "socket hang up") eq_refl eq_refl eq_refl)
    as [_ Hget].
  apply Hget. discriminate.
Defined.

(** [X4] A URI refused with [HEAD] and then answered with [GET] by a status
    that is neither a redirect nor in 200 to 299 is reported dead once,
    with the status line of the answer to [GET]. *)
Theorem refused_by_both_methods_reported_dead
        {L : NodeLibs} (w : World) (opts : Options) (node : TxtNode)
        (uri : string) (index : Z) (h : list Event)
        (out : Settled Response) (res : Response) :
  let head := EvFetch uri (probe_opts "HEAD") out in
  let get := EvFetch uri (probe_opts "GET") (Fulfilled res) in
  fetch w h uri (probe_opts "HEAD") = out ->
  head_fails out ->
  fetch w (h ++ [head]) uri (probe_opts "GET") = Fulfilled res ->
  isRedirect (status res) = false ->
  Response_ok res = false ->
  isLocal uri = false ->
  select_method opts uri = "HEAD" ->
  exec w (lint_probe opts node uri index) h
  = (Returned tt,
     (h ++ [head; get;
            EvReport node
              {| err_message :=
                   uri ++ " is dead. ("
                       ++ (Number_toString (status res) ++ " "
                             ++ statusText res) ++ ")";
                 err_index := index;
                 err_fix := None |}])%list).
Proof.
  intros head get H1 Hfail H2 Hred Hno Hl Hm.
  rewrite exec_lint_probe. unfold probe_of. rewrite Hl, Hm.
  rewrite (head_fails_retries w uri h out H1 Hfail). fold head.
  unfold isAliveURI.
  rewrite (exec_isAliveURI_once w uri "GET" 1 _ eq_refl), H2. cbv zeta.
  rewrite Hred. cbn [ok message template]. rewrite Hno. cbn [negb].
  rewrite <- !app_assoc. reflexivity.
Qed.

Lemma refused_by_both_methods_reported_dead_witness :
  exec (constant_world
          (Fulfilled {| status := 404; statusText := "Not Found";
                        url := "http://example.com/404" |})
          (Fulfilled tt))
       (lint_probe (L := toy_libs) DEFAULT_OPTIONS sample_node
                   "http://example.com/404" 7) []
  = (Returned tt,
     [EvFetch "http://example.com/404" (probe_opts "HEAD")
              (Fulfilled {| status := 404; statusText := "Not Found";
                            url := "http://example.com/404" |});
      EvFetch "http://example.com/404" (probe_opts "GET")
              (Fulfilled {| status := 404; statusText := "Not Found";
                            url := "http://example.com/404" |});
      EvReport sample_node
        {| err_message := "http://example.com/404 is dead. (404 Not Found)";
           err_index := 7;
           err_fix := None |}]).
Proof.
  refine (refused_by_both_methods_reported_dead
            (L := toy_libs)
            (constant_world
               (Fulfilled {| status := 404; statusText := "Not Found";
                             url := "http://example.com/404" |})
               (Fulfilled tt))
            DEFAULT_OPTIONS sample_node "http://example.com/404" 7 []
            _ _ eq_refl _ eq_refl eq_refl eq_refl eq_refl eq_refl).
  split.
  - simpl. intros H.
    repeat (destruct H as [H | H]; [discriminate |]). exact H.
  - intros [_ H]. vm_compute in H. apply H. reflexivity.
Defined.

(** ** What a check leaves behind *)

Lemma reports_of_probes (evs : list Event) :
  forallb is_probe evs = true -> reports_of evs = [].
Proof.
  induction evs as [| ev evs IH]; simpl; [reflexivity |].
  rewrite andb_true_iff. intros [Hev Hevs].
  destruct ev; simpl in *; try discriminate; auto.
Qed.

(** A probe with a method other than [HEAD] that is ok ends with an
    answer that shows the target alive. *)
Lemma isAliveURI_once_alive (w : World) (uri m : string) (k : nat)
      (h : list Event) :
  (m =? "HEAD")%string = false ->
  exists (r : AliveResult) (evs : list Event),
    exec w (isAliveURI_fuel (S k) uri m) h = (Returned r, (h ++ evs)%list)
    /\ forallb is_probe evs = true
    /\ (ok r = true ->
        exists before last,
          evs = (before ++ [last])%list /\ alive_answer last = true).
Proof.
  intros Hm. rewrite (exec_isAliveURI_once w uri m k h Hm).
  destruct (fetch w h uri (probe_opts m)) as [res | ex].
  - cbv zeta. destruct (isRedirect (status res)).
    + destruct (fetch w _ uri _) as [finalRes | ex];
        eexists; eexists; (split; [rewrite <- app_assoc; reflexivity |]);
        (split; [reflexivity |]); cbn [ok failed]; intros Hok;
        [| discriminate].
      exists [EvFetch uri (probe_opts m) (Fulfilled res)],
             (EvFetch uri (follow_opts m) (Fulfilled finalRes)).
      split; [reflexivity | exact Hok].
    + eexists; eexists; (split; [reflexivity |]); (split; [reflexivity |]).
      cbn [ok]. intros Hok.
      exists [], (EvFetch uri (probe_opts m) (Fulfilled res)).
      split; [reflexivity | exact Hok].
  - eexists; eexists; (split; [reflexivity |]); (split; [reflexivity |]).
    cbn [ok failed]. discriminate.
Qed.

Lemma isAliveURI_HEAD_alive (w : World) (uri : string) (h : list Event) :
  exists (r : AliveResult) (evs : list Event),
    exec w (isAliveURI uri "HEAD") h = (Returned r, (h ++ evs)%list)
    /\ forallb is_probe evs = true
    /\ (ok r = true ->
        exists before last,
          evs = (before ++ [last])%list /\ alive_answer last = true).
Proof.
  assert (Hget : forall evs0,
             forallb is_probe evs0 = true ->
             exists r evs,
               exec w (isAliveURI_fuel 1 uri "GET") (h ++ evs0)%list
               = (Returned r, (h ++ evs)%list)
               /\ forallb is_probe evs = true
               /\ (ok r = true ->
                   exists before last,
                     evs = (before ++ [last])%list
                     /\ alive_answer last = true)).
  { intros evs0 H0.
    destruct (isAliveURI_once_alive w uri "GET" 0 (h ++ evs0)%list eq_refl)
      as (r & evs & Hr & Hp & Hal).
    exists r, (evs0 ++ evs)%list. rewrite Hr, app_assoc.
    split; [reflexivity |]. rewrite forallb_app, H0, Hp.
    split; [reflexivity |]. intros Hok.
    destruct (Hal Hok) as (before & last & -> & Hlast).
    exists (evs0 ++ before)%list, last. rewrite app_assoc. auto. }
  unfold isAliveURI. rewrite exec_isAliveURI_HEAD.
  destruct (fetch w h uri (probe_opts "HEAD")) as [res | ex];
    [| apply Hget; reflexivity].
  cbv zeta. destruct (isRedirect (status res)).
  - destruct (fetch w _ uri _) as [finalRes | ex].
    + eexists; eexists. rewrite <- app_assoc.
      split; [reflexivity |]. split; [reflexivity |]. cbn [ok]. intros Hok.
      exists [EvFetch uri (probe_opts "HEAD") (Fulfilled res)],
             (EvFetch uri (follow_opts "HEAD") (Fulfilled finalRes)).
      split; [reflexivity | exact Hok].
    + rewrite <- app_assoc. apply Hget; reflexivity.
  - destruct (Response_ok res) eqn:Hres; [| apply Hget; reflexivity].
    eexists; eexists. split; [reflexivity |]. split; [reflexivity |].
    intros _. exists [], (EvFetch uri (probe_opts "HEAD") (Fulfilled res)).
    split; [reflexivity | exact Hres].
Qed.

Lemma probe_of_alive {L : NodeLibs} (w : World) (opts : Options)
      (uri : string) (h : list Event) :
  exists (r : AliveResult) (evs : list Event),
    exec w (probe_of opts uri) h = (Returned r, (h ++ evs)%list)
    /\ forallb is_probe evs = true
    /\ (ok r = true ->
        exists before last,
          evs = (before ++ [last])%list /\ alive_answer last = true).
Proof.
  unfold probe_of. destruct (isLocal uri).
  - rewrite exec_isAliveLocalFile. cbv zeta.
    destruct (fs_access w h _) as [u | ex];
      eexists; eexists; (split; [reflexivity |]); (split; [reflexivity |]);
      cbn [ok]; [| discriminate].
    intros _. exists [], (EvAccess (stripQueryFragment uri) (Fulfilled u)).
    split; reflexivity.
  - destruct (select_method_cases opts uri) as [-> | ->].
    + apply (isAliveURI_once_alive w uri "GET" 1 h eq_refl).
    + apply isAliveURI_HEAD_alive.
Qed.

(** The three ways a check ends: nothing done; probes, then one report;
    probes, the last of which shows the target alive. *)
Lemma lint_ends {L : NodeLibs} (w : World) (getFilePath : option string)
      (opts : Options) (item : URIOccurrence) (h : list Event) :
  exists evs : list Event,
    exec w (lint getFilePath opts item) h = (Returned tt, (h ++ evs)%list)
    /\ ((evs = []
         /\ (isIgnored (occ_uri item) (ignore opts) = true
             \/ (isRelative (occ_uri item) = true
                 /\ checkRelative opts = false)))
        \/ (exists probes err,
               evs = (probes ++ [EvReport (occ_node item) err])%list
               /\ forallb is_probe probes = true
               /\ err_index err = occ_index item)
        \/ (exists before last,
               evs = (before ++ [last])%list
               /\ forallb is_probe evs = true
               /\ alive_answer last = true)).
Proof.
  assert (Hprobe : forall uri,
             exists evs,
               exec w (lint_probe opts (occ_node item) uri (occ_index item)) h
               = (Returned tt, (h ++ evs)%list)
               /\ ((exists probes err,
                       evs = (probes ++ [EvReport (occ_node item) err])%list
                       /\ forallb is_probe probes = true
                       /\ err_index err = occ_index item)
                   \/ (exists before last,
                          evs = (before ++ [last])%list
                          /\ forallb is_probe evs = true
                          /\ alive_answer last = true))).
  { intros uri. rewrite exec_lint_probe.
    destruct (probe_of_alive w opts uri h) as (r & probes & -> & Hp & Hal).
    destruct (ok r) eqn:Hok; cbn [negb].
    - destruct (redirected r).
      + eexists. rewrite <- app_assoc. split; [reflexivity |].
        left. eexists; eexists. split; [reflexivity |]. auto.
      + exists probes. split; [reflexivity |]. right.
        destruct (Hal eq_refl) as (before & last & Heq & Hlast).
        exists before, last. auto.
    - eexists. rewrite <- app_assoc. split; [reflexivity |].
      left. eexists; eexists. split; [reflexivity |]. auto. }
  unfold lint. cbv zeta.
  destruct (isIgnored (occ_uri item) (ignore opts)) eqn:Hi.
  { exists []. rewrite app_nil_r. split; [reflexivity |]. left. auto. }
  destruct (isRelative (occ_uri item)) eqn:Hr.
  - destruct (checkRelative opts) eqn:Hc; cbn [negb].
    + destruct (negb (truthy (js_or (baseURI opts) getFilePath))).
      * eexists. split; [reflexivity |]. right. left.
        exists [], {| err_message := UNRESOLVED_MESSAGE;
                      err_index := occ_index item; err_fix := None |}.
        repeat split.
      * destruct (Hprobe (URL_resolve
                            (string_value (js_or (baseURI opts) getFilePath))
                            (occ_uri item))) as (evs & He & Hs).
        exists evs. split; [exact He |]. right. exact Hs.
    + exists []. rewrite app_nil_r. split; [reflexivity |]. left. auto.
  - destruct (Hprobe (occ_uri item)) as (evs & He & Hs).
    exists evs. split; [exact He |]. right. exact Hs.
Qed.

Lemma reports_of_app (evs1 evs2 : list Event) :
  reports_of (evs1 ++ evs2) = (reports_of evs1 ++ reports_of evs2)%list.
Proof.
  unfold reports_of. apply flat_map_app.
Qed.

(** ** Options that do not concern a URI *)

(** [X7] With [checkRelative] off a relative URI is left alone: it is not
    probed, and the lack of a base is not reported either. *)
Theorem relative_uri_left_alone_when_unchecked
        {L : NodeLibs} (getFilePath : option string) (opts : Options)
        (item : URIOccurrence) :
  isRelative (occ_uri item) = true ->
  checkRelative opts = false ->
  forall (w : World) (h : list Event),
    exec w (lint getFilePath opts item) h = (Returned tt, h).
Proof.
  intros Hr Hc w h. unfold lint. cbv zeta. rewrite Hr, Hc.
  destruct (isIgnored _ _); reflexivity.
Qed.

Lemma relative_uri_left_alone_when_unchecked_witness :
  exec (constant_world (Rejected (mkError "unreachable"))
                       (Rejected (mkError "ENOENT")))
       (lint (L := toy_libs) None
             {| checkRelative := false; baseURI := None; ignore := [];
                preferGET := [] |}
             relative_item) []
  = (Returned tt, []).
Proof.
  exact (relative_uri_left_alone_when_unchecked
           (L := toy_libs) None
           {| checkRelative := false; baseURI := None; ignore := [];
              preferGET := [] |}
           relative_item eq_refl eq_refl
           (constant_world (Rejected (mkError "unreachable"))
                           (Rejected (mkError "ENOENT")))
           []).
Defined.

(** [X8] The check of a URI that is not relative depends on the options
    through [ignore] and [preferGET] only: [checkRelative], [baseURI] and
    the path of the file play no part in it. *)
Theorem absolute_uri_unaffected_by_base
        {L : NodeLibs} (getFilePath getFilePath' : option string)
        (opts opts' : Options) (item : URIOccurrence) :
  isRelative (occ_uri item) = false ->
  ignore opts' = ignore opts ->
  preferGET opts' = preferGET opts ->
  lint getFilePath' opts' item = lint getFilePath opts item.
Proof.
  intros Hr Hi Hp. unfold lint, lint_probe, select_method. cbv zeta.
  rewrite Hr, Hi, Hp. reflexivity.
Qed.

Lemma absolute_uri_unaffected_by_base_witness :
  lint (L := toy_libs) (Some "/docs/readme.md")
       {| checkRelative := false; baseURI := Some "http://example.org/";
          ignore := []; preferGET := [] |}
       sample_item
  = lint (L := toy_libs) None DEFAULT_OPTIONS sample_item.
Proof.
  exact (absolute_uri_unaffected_by_base
           (L := toy_libs) None (Some "/docs/readme.md") DEFAULT_OPTIONS
           {| checkRelative := false; baseURI := Some "http://example.org/";
              ignore := []; preferGET := [] |}
           sample_item eq_refl eq_refl eq_refl).
Defined.

(** ** The path given to the file system *)

Lemma stripQueryFragment_keeps_terminator (s : string) :
  hasLineTerminator s = true ->
  hasLineTerminator (stripQueryFragment s) = true.
Proof.
  induction s as [| c s IH]; simpl; [discriminate |].
  intros Hlt.
  destruct (((c =? "?")%char || (c =? "#")%char)
            && negb (hasLineTerminator s)) eqn:E.
  - exfalso. apply andb_true_iff in E. destruct E as [Hc Hs].
    apply negb_true_iff in Hs. rewrite Hs, orb_false_r in Hlt.
    apply orb_true_iff in Hc.
    destruct Hc as [Hc | Hc]; apply Ascii.eqb_eq in Hc; subst c;
      discriminate.
  - simpl. apply orb_true_iff in Hlt. destruct Hlt as [-> | Hlt];
      [reflexivity |].
    rewrite (IH Hlt). apply orb_true_r.
Qed.

(** [X9] A path without [?] and [#] is given to the file system as it is, and
    a stripped path has nothing more to strip. *)
Theorem stripQueryFragment_stable (s : string) :
  (has_query_or_fragment s = false -> stripQueryFragment s = s)
  /\ stripQueryFragment (stripQueryFragment s) = stripQueryFragment s.
Proof.
  split.
  - induction s as [| c s IH]; simpl; [reflexivity |].
    intros H. apply orb_false_iff in H. destruct H as [Hc Hs].
    rewrite Hc. simpl. rewrite (IH Hs). reflexivity.
  - induction s as [| c s IH]; simpl; [reflexivity |].
    destruct (((c =? "?")%char || (c =? "#")%char)
              && negb (hasLineTerminator s)) eqn:E; [reflexivity |].
    simpl. rewrite IH.
    apply andb_false_iff in E. destruct E as [-> | E]; [reflexivity |].
    apply negb_false_iff in E.
    rewrite (stripQueryFragment_keeps_terminator s E).
    rewrite andb_false_r. reflexivity.
Qed.

Lemma stripQueryFragment_stable_witness :
  stripQueryFragment "/tmp/notes.md" = "/tmp/notes.md"
  /\ stripQueryFragment (stripQueryFragment "/tmp/notes.md?v=1#top")
     = "/tmp/notes.md".
Proof.
  destruct (stripQueryFragment_stable "/tmp/notes.md") as [Hsame _].
  destruct (stripQueryFragment_stable "/tmp/notes.md?v=1#top") as [_ Htwice].
  split; [exact (Hsame eq_refl) | rewrite Htwice; reflexivity].
Defined.

(** ** The occurrences of a link *)

Lemma prefix_length (s1 s2 : string) :
  prefix s1 s2 = true -> (String.length s1 <= String.length s2)%nat.
Proof.
  revert s2. induction s1 as [| a s1 IH]; intros s2; [simpl; lia |].
  destruct s2 as [| b s2]; simpl; [discriminate |].
  destruct (ascii_dec a b); [| discriminate].
  intros H. apply IH in H. lia.
Qed.

Lemma index_within (s1 s2 : string) :
  forall n : nat,
    index 0 s1 s2 = Some n ->
    (n + String.length s1 <= String.length s2)%nat.
Proof.
  induction s2 as [| b s2 IH]; intros n; cbn [index].
  - destruct s1; [| discriminate]. intros H. injection H as <-. simpl. lia.
  - destruct (prefix s1 (String b s2)) eqn:E.
    + intros H. injection H as <-. apply prefix_length in E. simpl in *. lia.
    + destruct (index 0 s1 s2) as [m |]; [| discriminate].
      intros H. injection H as <-. specialize (IH m eq_refl).
      cbn [String.length]. lia.
Qed.

(** [X10] The handler of links keeps the occurrences collected so far and adds
    one at most: none for a link inside a block quote or without URL;
    otherwise exactly one, for the node and its URL, at the offset
    [indexOf] gives, which is -1 or lies where the URL fits inside the
    source text of the node. *)
Theorem Link_handler_adds_at_most_one
        (URIs : list URIOccurrence) (node : TxtNode) :
  exists added : list URIOccurrence,
    Link_handler URIs node = (URIs ++ added)%list
    /\ (List.length added <= 1)%nat
    /\ (isChildNode node [BlockQuote] = true \/ node_url node = None ->
        added = [])
    /\ (isChildNode node [BlockQuote] = false ->
        forall u : string,
          node_url node = Some u ->
          added = [ {| occ_node := node; occ_uri := u;
                       occ_index := indexOf (raw node) u |} ])
    /\ (forall o : URIOccurrence,
           In o added ->
           occ_node o = node
           /\ node_url node = Some (occ_uri o)
           /\ (occ_index o = -1
               \/ 0 <= occ_index o
                  /\ occ_index o + Z.of_nat (String.length (occ_uri o))
                     <= Z.of_nat (String.length (raw node)))).
Proof.
  unfold Link_handler.
  destruct (isChildNode node [BlockQuote]) eqn:Hq.
  { exists []. rewrite app_nil_r. split; [reflexivity |].
    split; [simpl; lia |]. split; [reflexivity |].
    split; [discriminate | intros o []]. }
  destruct (node_url node) as [u |] eqn:Hu.
  - eexists. split; [reflexivity |]. simpl. split; [lia |]. split; [| split].
    + intros [H | H]; discriminate.
    + intros _ u' Hu'. injection Hu' as <-.
      rewrite js_or_num_zero. reflexivity.
    + intros o [<- | []]. cbn [occ_node occ_uri occ_index].
      split; [reflexivity |]. split; [reflexivity |].
      rewrite js_or_num_zero. unfold indexOf.
      destruct (index 0 u (raw node)) as [n |] eqn:E; [right | left; reflexivity].
      apply index_within in E. lia.
  - exists []. rewrite app_nil_r. split; [reflexivity |].
    split; [simpl; lia |]. split; [reflexivity |].
    split; [discriminate | intros o []].
Qed.

Lemma Link_handler_adds_at_most_one_witness :
  Link_handler [sample_item]
               {| node_type := Link; raw := "<a>Placeholder Link</a>";
                  node_url := None; ancestors := [Paragraph; Document] |}
  = [sample_item]
  /\ Link_handler [sample_item] sample_node = [sample_item; sample_item].
Proof.
  split.
  - destruct (Link_handler_adds_at_most_one
                [sample_item]
                {| node_type := Link; raw := "<a>Placeholder Link</a>";
                   node_url := None; ancestors := [Paragraph; Document] |})
      as (added & Heq & _ & Hnone & _).
    rewrite Heq, (Hnone (or_intror eq_refl)). reflexivity.
  - destruct (Link_handler_adds_at_most_one [sample_item] sample_node)
      as (added & Heq & _ & _ & Hone & _).
    rewrite Heq, (Hone eq_refl "http://example.com/old" eq_refl).
    reflexivity.
Defined.

(** ** The URIs found in a text *)

Lemma last_char_app (prev : option ascii) (pre1 pre2 : string) :
  last_char prev (pre1 ++ pre2) = last_char (last_char prev pre1) pre2.
Proof.
  revert prev. induction pre1 as [| c pre1 IH]; intros prev; simpl; auto.
Qed.

Lemma append_assoc (a b c : string) : (a ++ b) ++ c = a ++ (b ++ c).
Proof.
  induction a as [| x a IH]; simpl; [reflexivity | rewrite IH; reflexivity].
Qed.

Lemma append_nil_r (a : string) : a ++ "" = a.
Proof.
  induction a as [| x a IH]; simpl; [reflexivity | rewrite IH; reflexivity].
Qed.

Lemma length_append (a b : string) :
  String.length (a ++ b) = (String.length a + String.length b)%nat.
Proof.
  induction a as [| x a IH]; simpl; [reflexivity | rewrite IH; reflexivity].
Qed.

Lemma match_lit_sound (l : string) :
  forall (prev : option ascii) (s : string) (n : nat) (k : Cont) (len : nat),
    match_lit l prev s n k = Some len ->
    exists rest,
      s = l ++ rest
      /\ k (last_char prev l) rest (n + String.length l)%nat = Some len.
Proof.
  induction l as [| a l IH]; intros prev s n k len; simpl.
  - intros H. exists s. rewrite Nat.add_0_r. auto.
  - destruct s as [| c s]; [discriminate |].
    destruct (a =? c)%char eqn:E; [| discriminate].
    apply Ascii.eqb_eq in E. subst c. intros H.
    destruct (IH _ _ _ _ _ H) as (rest & -> & Hk).
    exists rest. split; [reflexivity |].
    rewrite <- Hk. f_equal. lia.
Qed.

Lemma match_rep_sound (cls : ascii -> bool) (s : string) :
  forall (min : nat) (max : option nat) (prev : option ascii) (n : nat)
         (k : Cont) (len : nat),
    match_rep cls min max prev s n k = Some len ->
    exists pre rest,
      s = pre ++ rest
      /\ all_chars cls pre = true
      /\ (min <= String.length pre)%nat
      /\ within max (String.length pre)
      /\ k (last_char prev pre) rest (n + String.length pre)%nat = Some len.
Proof.
  induction s as [| c s IH]; intros min max prev n k len.
  - simpl. destruct (Nat.eqb min 0) eqn:E; [| discriminate].
    apply Nat.eqb_eq in E. subst min. intros H.
    exists "", "". simpl. rewrite Nat.add_0_r.
    repeat split; auto. destruct max; simpl; lia.
  - cbn [match_rep].
    assert (Hstop : (if Nat.eqb min 0 then k prev (String c s) n else None)
                    = Some len ->
                    exists pre rest,
                      String c s = pre ++ rest
                      /\ all_chars cls pre = true
                      /\ (min <= String.length pre)%nat
                      /\ within max (String.length pre)
                      /\ k (last_char prev pre) rest
                           (n + String.length pre)%nat = Some len).
    { destruct (Nat.eqb min 0) eqn:E; [| discriminate].
      apply Nat.eqb_eq in E. subst min. intros H.
      exists "", (String c s). simpl. rewrite Nat.add_0_r.
      repeat split; auto. destruct max; simpl; lia. }
    destruct (cls c && may_repeat max) eqn:Hc; [| exact Hstop].
    destruct (match_rep cls (pred min) (one_less max) (Some c) s (S n) k)
      as [len' |] eqn:Hm; [| exact Hstop].
    intros H. injection H as <-.
    destruct (IH _ _ _ _ _ _ Hm) as (pre & rest & -> & Hall & Hmin & Hmax & Hk).
    apply andb_true_iff in Hc. destruct Hc as [Hc Hmay].
    exists (String c pre), rest. simpl. rewrite Hc, Hall.
    repeat split; auto; try lia.
    + destruct max as [[| m] |]; simpl in *; try discriminate; try lia; auto.
    + rewrite <- Hk. f_equal. lia.
Qed.

(** The matcher only finds what the pattern can consume. *)
Lemma match_regex_sound (r : Regex) :
  forall (prev : option ascii) (s : string) (n : nat) (k : Cont) (len : nat),
    match_regex r prev s n k = Some len ->
    exists pre rest,
      s = pre ++ rest
      /\ Consumes r prev pre rest
      /\ k (last_char prev pre) rest (n + String.length pre)%nat = Some len.
Proof.
  induction r as [l | cls min max | r IH | r1 IH1 r2 IH2 | ];
    intros prev s n k len; cbn [match_regex].
  - intros H. destruct (match_lit_sound _ _ _ _ _ _ H) as (rest & -> & Hk).
    exists l, rest. repeat split; auto. constructor.
  - intros H.
    destruct (match_rep_sound _ _ _ _ _ _ _ _ H)
      as (pre & rest & -> & Hall & Hmin & Hmax & Hk).
    exists pre, rest. repeat split; auto. constructor; auto.
  - destruct (match_regex r prev s n k) as [len' |] eqn:Hm.
    + intros H. injection H as <-.
      destruct (IH _ _ _ _ _ Hm) as (pre & rest & -> & Hc & Hk).
      exists pre, rest. repeat split; auto. constructor; auto.
    + intros H. exists "", s. simpl. rewrite Nat.add_0_r.
      split; [reflexivity |]. split; [apply Consumes_skip | exact H].
  - intros H.
    destruct (IH1 _ _ _ _ _ H) as (pre1 & rest1 & -> & Hc1 & Hk1).
    destruct (IH2 _ _ _ _ _ Hk1) as (pre2 & rest & -> & Hc2 & Hk2).
    exists (pre1 ++ pre2), rest. rewrite append_assoc. split; [reflexivity |].
    split; [constructor; assumption |].
    rewrite last_char_app, length_append, Nat.add_assoc. exact Hk2.
  - destruct (xorb (is_word prev) (is_word (first_char s))) eqn:E;
      [| discriminate].
    intros H. exists "", s. simpl. rewrite Nat.add_0_r.
    repeat split; auto. constructor. exact E.
Qed.

Lemma last_char_in_class (cls : ascii -> bool) (pre : string) :
  forall prev : option ascii,
    all_chars cls pre = true -> pre <> "" ->
    exists c, last_char prev pre = Some c /\ cls c = true.
Proof.
  induction pre as [| a pre IH]; intros prev Hall Hne; [congruence |].
  simpl in *. apply andb_true_iff in Hall. destruct Hall as [Ha Hall].
  destruct pre as [| b pre].
  - exists a. auto.
  - apply IH; [exact Hall | discriminate].
Qed.

Lemma is_lower_word (c : ascii) : is_lower c = true -> word_char c = true.
Proof.
  unfold word_char, is_alnum. intros ->. reflexivity.
Qed.

Ltac invert_consumes :=
  match goal with
  | H : Consumes (Seq _ _) _ _ _ |- _ => inversion H; subst; clear H
  | H : Consumes (Lit _) _ _ _ |- _ => inversion H; subst; clear H
  | H : Consumes (Opt _) _ _ _ |- _ => inversion H; subst; clear H
  | H : Consumes (Rep _ _ _) _ _ _ |- _ => inversion H; subst; clear H
  | H : Consumes WordBoundary _ _ _ |- _ => inversion H; subst; clear H
  end.

Lemma match_at_shape (prev : option ascii) (s : string) (n : nat) :
  match_at prev s = Some n ->
  exists scheme www host tld tail rest : string,
    s = (scheme ++ "//" ++ www ++ host ++ "." ++ tld ++ tail) ++ rest
    /\ n = String.length (scheme ++ "//" ++ www ++ host ++ "." ++ tld ++ tail)
    /\ (scheme = "" \/ scheme = "http:" \/ scheme = "https:")
    /\ (www = "" \/ www = "www.")
    /\ all_chars host_char host = true
    /\ (2 <= String.length host <= 256)%nat
    /\ all_chars is_lower tld = true
    /\ (2 <= String.length tld <= 6)%nat
    /\ all_chars tail_char tail = true
    /\ is_word (first_char (tail ++ rest)) = false
    /\ (7 <= n)%nat.
Proof.
  intros H. unfold match_at in H. apply match_regex_sound in H.
  destruct H as (pre & rest & -> & Hc & Hn). injection Hn as <-.
  unfold URI_REGEXP in Hc.
  repeat invert_consumes;
    match goal with
    | Hh : all_chars host_char ?host = true,
      Ht : all_chars is_lower ?tld = true,
      Hl : all_chars tail_char ?tail = true,
      Hb : xorb (is_word (last_char ?p ?tld)) _ = true |- _ =>
      assert (Hw : is_word (last_char p tld) = true)
        by (destruct (last_char_in_class is_lower tld p Ht) as (c & -> & Hlow);
            [destruct tld; [simpl in *; lia | discriminate]
            | apply is_lower_word; exact Hlow]);
      rewrite Hw in Hb; simpl in Hb; apply negb_true_iff in Hb;
      simpl in *;
      first
        [ solve [exists "", "", host, tld, tail, rest;
                 repeat split; auto; try lia;
                 rewrite ?length_append; simpl; rewrite ?length_append;
                 simpl; lia]
        | solve [exists "", "www.", host, tld, tail, rest;
                 repeat split; auto; try lia;
                 rewrite ?length_append; simpl; rewrite ?length_append;
                 simpl; lia]
        | solve [exists "http:", "", host, tld, tail, rest;
                 repeat split; auto; try lia;
                 rewrite ?length_append; simpl; rewrite ?length_append;
                 simpl; lia]
        | solve [exists "http:", "www.", host, tld, tail, rest;
                 repeat split; auto; try lia;
                 rewrite ?length_append; simpl; rewrite ?length_append;
                 simpl; lia]
        | solve [exists "https:", "", host, tld, tail, rest;
                 repeat split; auto; try lia;
                 rewrite ?length_append; simpl; rewrite ?length_append;
                 simpl; lia]
        | solve [exists "https:", "www.", host, tld, tail, rest;
                 repeat split; auto; try lia;
                 rewrite ?length_append; simpl; rewrite ?length_append;
                 simpl; lia] ]
    end.
Qed.

(** The last part of the pattern, which nothing follows, takes all the
    characters of its class that it finds. *)
Lemma match_rep_never_fails (cls : ascii -> bool) (s : string) :
  forall (prev : option ascii) (n : nat),
    match_rep cls 0 None prev s n (fun _ _ m => Some m) <> None.
Proof.
  induction s as [| c s IH]; intros prev n; cbn [match_rep]; [discriminate |].
  destruct (cls c && may_repeat None); [| discriminate].
  destruct (match_rep cls (pred 0) (one_less None) (Some c) s (S n)
                      (fun _ _ m => Some m)); discriminate.
Qed.

Lemma match_rep_greedy (cls : ascii -> bool) (s : string) :
  forall (prev : option ascii) (n len : nat),
    match_rep cls 0 None prev s n (fun _ _ m => Some m) = Some len ->
    exists pre rest,
      s = pre ++ rest
      /\ all_chars cls pre = true
      /\ len = (n + String.length pre)%nat
      /\ (forall c, first_char rest = Some c -> cls c = false).
Proof.
  induction s as [| c s IH]; intros prev n len; cbn [match_rep].
  - intros H. injection H as <-. exists "", "". simpl.
    split; [reflexivity |]. split; [reflexivity |]. split; [lia |].
    intros c Hc. discriminate.
  - destruct (cls c) eqn:Hc; cbn [andb may_repeat].
    + destruct (match_rep cls (pred 0) (one_less None) (Some c) s (S n)
                          (fun _ _ m => Some m)) as [len' |] eqn:Hm.
      * intros H. injection H as <-.
        destruct (IH _ _ _ Hm) as (pre & rest & -> & Hall & -> & Hmax).
        exists (String c pre), rest. simpl. rewrite Hc, Hall.
        split; [reflexivity |]. split; [reflexivity |]. split; [lia |].
        exact Hmax.
      * exfalso. exact (match_rep_never_fails cls s (Some c) (S n) Hm).
    + intros H. injection H as <-. exists "", (String c s). simpl.
      split; [reflexivity |]. split; [reflexivity |]. split; [lia |].
      intros c' Hc'. injection Hc' as <-. exact Hc.
Qed.

Lemma word_char_is_tail_char (c : ascii) :
  word_char c = true -> tail_char c = true.
Proof.
  unfold word_char, tail_char. intros H. apply orb_true_iff in H.
  destruct H as [-> | H]; [reflexivity |].
  apply Ascii.eqb_eq in H. subst c. reflexivity.
Qed.

(** [X11] What [URI_REGEXP] matches at a position has this shape: nothing,
    [http:] or [https:]; two slashes; [www.] or not; 2 to 256 characters
    of the first class; a dot; 2 to 6 lower-case letters, after which no
    letter, digit or underscore comes; then all the characters of the
    second class that follow.  So what comes after the match starts with
    no character of the second class, hence with no letter, digit or
    underscore, and a match has 7 characters at least. *)
Theorem matched_URI_has_shape (prev : option ascii) (s : string) (n : nat) :
  match_at prev s = Some n ->
  exists scheme www host tld tail rest : string,
    s = (scheme ++ "//" ++ www ++ host ++ "." ++ tld ++ tail) ++ rest
    /\ n = String.length (scheme ++ "//" ++ www ++ host ++ "." ++ tld ++ tail)
    /\ (scheme = "" \/ scheme = "http:" \/ scheme = "https:")
    /\ (www = "" \/ www = "www.")
    /\ all_chars host_char host = true
    /\ (2 <= String.length host <= 256)%nat
    /\ all_chars is_lower tld = true
    /\ (2 <= String.length tld <= 6)%nat
    /\ all_chars tail_char tail = true
    /\ is_word (first_char (tail ++ rest)) = false
    /\ (forall c : ascii, first_char rest = Some c -> tail_char c = false)
    /\ is_word (first_char rest) = false
    /\ (7 <= n)%nat.
Proof.
  intros H. unfold match_at in H.
  change (match_regex URI_REGEXP prev s 0 (fun _ _ m => Some m))
    with (match_regex URI_REGEXP_head prev s 0
            (fun p s' n' =>
               match_regex URI_REGEXP_tail p s' n' (fun _ _ m => Some m)))
    in H.
  apply match_regex_sound in H.
  destruct H as (pre & rest1 & -> & Hc & Hk).
  cbn [match_regex URI_REGEXP_tail] in Hk. apply match_rep_greedy in Hk.
  destruct Hk as (tail & rest & -> & Htail & -> & Hmax).
  assert (Hafter : is_word (first_char rest) = false).
  { destruct rest as [| c rest]; [reflexivity |]. simpl.
    destruct (word_char c) eqn:Hw; [| reflexivity].
    apply word_char_is_tail_char in Hw.
    rewrite (Hmax c eq_refl) in Hw. discriminate. }
  unfold URI_REGEXP_head in Hc.
  repeat invert_consumes;
    match goal with
    | Hh : all_chars host_char ?host = true,
      Ht : all_chars is_lower ?tld = true,
      Hb : xorb (is_word (last_char ?p ?tld)) _ = true |- _ =>
      assert (Hw : is_word (last_char p tld) = true)
        by (destruct (last_char_in_class is_lower tld p Ht) as (c & -> & Hlow);
            [destruct tld; [simpl in *; lia | discriminate]
            | apply is_lower_word; exact Hlow]);
      rewrite Hw in Hb; simpl in Hb; apply negb_true_iff in Hb;
      first
        [ solve [exists "", "", host, tld, tail, rest;
                 repeat split; auto; try lia;
                 rewrite ?append_assoc; simpl; rewrite ?append_assoc;
                 simpl; rewrite ?append_assoc; try reflexivity;
                 rewrite ?length_append; simpl; rewrite ?length_append;
                 simpl; lia]
        | solve [exists "", "www.", host, tld, tail, rest;
                 repeat split; auto; try lia;
                 rewrite ?append_assoc; simpl; rewrite ?append_assoc;
                 simpl; rewrite ?append_assoc; try reflexivity;
                 rewrite ?length_append; simpl; rewrite ?length_append;
                 simpl; lia]
        | solve [exists "http:", "", host, tld, tail, rest;
                 repeat split; auto; try lia;
                 rewrite ?append_assoc; simpl; rewrite ?append_assoc;
                 simpl; rewrite ?append_assoc; try reflexivity;
                 rewrite ?length_append; simpl; rewrite ?length_append;
                 simpl; lia]
        | solve [exists "http:", "www.", host, tld, tail, rest;
                 repeat split; auto; try lia;
                 rewrite ?append_assoc; simpl; rewrite ?append_assoc;
                 simpl; rewrite ?append_assoc; try reflexivity;
                 rewrite ?length_append; simpl; rewrite ?length_append;
                 simpl; lia]
        | solve [exists "https:", "", host, tld, tail, rest;
                 repeat split; auto; try lia;
                 rewrite ?append_assoc; simpl; rewrite ?append_assoc;
                 simpl; rewrite ?append_assoc; try reflexivity;
                 rewrite ?length_append; simpl; rewrite ?length_append;
                 simpl; lia]
        | solve [exists "https:", "www.", host, tld, tail, rest;
                 repeat split; auto; try lia;
                 rewrite ?append_assoc; simpl; rewrite ?append_assoc;
                 simpl; rewrite ?append_assoc; try reflexivity;
                 rewrite ?length_append; simpl; rewrite ?length_append;
                 simpl; lia] ]
    end.
Qed.

Lemma matched_URI_has_shape_witness :
  exists scheme www host tld tail rest : string,
    "//www.foo.org/a Also"
    = (scheme ++ "//" ++ www ++ host ++ "." ++ tld ++ tail) ++ rest
    /\ 15%nat
       = String.length (scheme ++ "//" ++ www ++ host ++ "." ++ tld ++ tail)
    /\ (scheme = "" \/ scheme = "http:" \/ scheme = "https:")
    /\ (www = "" \/ www = "www.")
    /\ all_chars host_char host = true
    /\ (2 <= String.length host <= 256)%nat
    /\ all_chars is_lower tld = true
    /\ (2 <= String.length tld <= 6)%nat
    /\ all_chars tail_char tail = true
    /\ is_word (first_char (tail ++ rest)) = false
    /\ (forall c : ascii, first_char rest = Some c -> tail_char c = false)
    /\ is_word (first_char rest) = false
    /\ (7 <= 15)%nat.
Proof.
  exact (matched_URI_has_shape None "//www.foo.org/a Also" 15 eq_refl).
Defined.

Lemma substring_prefix_app (pre rest : string) :
  substring 0 (String.length pre) (pre ++ rest) = pre.
Proof.
  induction pre as [| c pre IH]; simpl.
  - destruct rest; reflexivity.
  - rewrite IH. reflexivity.
Qed.

(** A match is a part of the text, and its length is that of the part. *)
Lemma match_at_prefix (prev : option ascii) (s : string) (len : nat) :
  match_at prev s = Some len ->
  exists rest,
    s = substring 0 len s ++ rest
    /\ String.length (substring 0 len s) = len
    /\ (7 <= len)%nat.
Proof.
  intros H. destruct (match_at_shape prev s len H)
    as (scheme & www & host & tld & tail & rest & Hs & Hn & Hrest).
  exists rest. rewrite Hn. rewrite Hs at 1 2 3.
  rewrite substring_prefix_app.
  repeat split; auto. rewrite <- Hn. apply Hrest.
Qed.

Lemma scan_sound (s : string) :
  forall (prev : option ascii) (i skip : nat) (uri : string) (idx : Z),
    In (uri, idx) (scan prev s i skip) ->
    exists before after,
      s = before ++ uri ++ after
      /\ idx = Z.of_nat (i + String.length before)
      /\ match_at (last_char prev before) (uri ++ after)
         = Some (String.length uri).
Proof.
  induction s as [| c s IH]; intros prev i skip uri idx.
  - cbn [scan]. destruct skip; [| intros []].
    destruct (match_at prev "") as [len |] eqn:Hm; [| intros []].
    destruct (match_at_prefix prev "" len Hm) as (rest & Hs & Hlen & H7).
    exfalso. destruct len; [lia |].
    simpl in Hlen. discriminate.
  - cbn [scan]. destruct skip as [| skip].
    + destruct (match_at prev (String c s)) as [len |] eqn:Hm.
      * destruct (match_at_prefix prev _ len Hm) as (rest & Hs & Hlen & _).
        remember (substring 0 len (String c s)) as u eqn:Hu.
        intros [Heq | Hin].
        -- injection Heq as <- <-.
           exists "", rest. cbn [append last_char String.length].
           rewrite Nat.add_0_r.
           split; [exact Hs |]. split; [reflexivity |].
           rewrite Hlen, <- Hs. exact Hm.
        -- destruct (IH _ _ _ _ _ Hin) as (before & after & -> & -> & Hmatch).
           exists (String c before), after. simpl.
           repeat split; auto. f_equal. lia.
      * intros Hin.
        destruct (IH _ _ _ _ _ Hin) as (before & after & -> & -> & Hmatch).
        exists (String c before), after. simpl.
        repeat split; auto. f_equal. lia.
    + intros Hin.
      destruct (IH _ _ _ _ _ Hin) as (before & after & -> & -> & Hmatch).
      exists (String c before), after. simpl.
      repeat split; auto. f_equal. lia.
Qed.

Lemma in_order_le (ms : list (string * Z)) (from from' : Z) :
  from' <= from -> in_order from ms -> in_order from' ms.
Proof.
  destruct ms as [| [uri idx] ms]; simpl; [auto |].
  intros Hle [Hfrom Hrest]. split; [lia | exact Hrest].
Qed.

Lemma scan_in_order (s : string) :
  forall (prev : option ascii) (i skip : nat),
    in_order (Z.of_nat (i + skip)) (scan prev s i skip).
Proof.
  induction s as [| c s IH]; intros prev i skip.
  - cbn [scan]. destruct skip; [| exact I].
    destruct (match_at prev ""); simpl; [split; [lia | exact I] | exact I].
  - cbn [scan]. destruct skip as [| skip].
    + destruct (match_at prev (String c s)) as [len |] eqn:Hm.
      * destruct (match_at_prefix prev _ len Hm) as (rest & _ & Hlen & H7).
        cbn [in_order]. split; [lia |]. rewrite Hlen.
        eapply in_order_le; [| apply IH]. lia.
      * eapply in_order_le; [| apply IH]. lia.
    + eapply in_order_le; [| apply IH]. lia.
Qed.

Section VisitorFacts.
Variable getSource : TxtNode -> string.

Lemma Str_handler_added (URIs : list URIOccurrence) (node : TxtNode) :
  exists added : list URIOccurrence,
    Str_handler getSource URIs node = (URIs ++ added)%list
    /\ (isChildNode node [BlockQuote] = true
        \/ isChildNode node [Link] = true -> added = [])
    /\ (forall o : URIOccurrence,
           In o added ->
           occ_node o = node
           /\ isChildNode node [BlockQuote] = false
           /\ isChildNode node [Link] = false
           /\ In (occ_uri o, occ_index o) (URI_matches (getSource node)))
    /\ in_order 0 (map (fun o => (occ_uri o, occ_index o)) added).
Proof.
  unfold Str_handler.
  destruct (isChildNode node [BlockQuote]) eqn:Hq.
  { exists []. rewrite app_nil_r. split; [reflexivity |].
    split; [reflexivity |]. split; [intros o [] | exact I]. }
  destruct (isChildNode node [Link]) eqn:Hl.
  { exists []. rewrite app_nil_r. split; [reflexivity |].
    split; [reflexivity |]. split; [intros o [] | exact I]. }
  cbv zeta. eexists. split; [reflexivity |]. split; [| split].
  - intros [H | H]; discriminate.
  - intros o Hin. apply in_map_iff in Hin.
    destruct Hin as ([uri idx] & <- & Hin). simpl. auto.
  - rewrite map_map. simpl.
    replace (map (fun m : string * Z => (fst m, snd m))
                 (URI_matches (getSource node)))
      with (URI_matches (getSource node)).
    + apply (scan_in_order (getSource node) None 0 0).
    + induction (URI_matches (getSource node)) as [| [u i] l IH];
        simpl; [reflexivity | rewrite <- IH; reflexivity].
Qed.

Lemma URI_matches_sound (text uri : string) (idx : Z) :
  In (uri, idx) (URI_matches text) ->
  exists before after,
    text = before ++ uri ++ after
    /\ idx = Z.of_nat (String.length before)
    /\ match_at (last_char None before) (uri ++ after)
       = Some (String.length uri).
Proof.
  intros Hin. apply scan_sound in Hin. exact Hin.
Qed.

(** [X12] The handler of text nodes keeps the occurrences collected so far;
    it adds none for a node inside a block quote or inside a link;
    otherwise every occurrence it adds is a piece of the source text of
    the node, at the offset recorded for it, and the occurrences come in
    the order of the text without overlapping. *)
Theorem Str_handler_occurrences_in_text
        (URIs : list URIOccurrence) (node : TxtNode) :
  exists added : list URIOccurrence,
    Str_handler getSource URIs node = (URIs ++ added)%list
    /\ (isChildNode node [BlockQuote] = true
        \/ isChildNode node [Link] = true -> added = [])
    /\ (forall o : URIOccurrence,
           In o added ->
           occ_node o = node
           /\ exists before after,
               getSource node = before ++ occ_uri o ++ after
               /\ occ_index o = Z.of_nat (String.length before))
    /\ in_order 0 (map (fun o => (occ_uri o, occ_index o)) added).
Proof.
  destruct (Str_handler_added URIs node) as (added & Heq & Hskip & Hin & Hord).
  exists added. split; [exact Heq |]. split; [exact Hskip |].
  split; [| exact Hord].
  intros o Ho. destruct (Hin o Ho) as (Hnode & _ & _ & Hm).
  split; [exact Hnode |].
  destruct (URI_matches_sound _ _ _ Hm) as (before & after & Ht & Hi & _).
  exists before, after. auto.
Qed.

Lemma one_of_app (a b : string) (c : ascii) :
  one_of (a ++ b) c = one_of a c || one_of b c.
Proof.
  induction a as [| x a IH]; simpl; [reflexivity |].
  rewrite IH. apply orb_assoc.
Qed.

(** [X13] A text without a slash holds no URI for the rule, whatever else it
    holds: the handler of text nodes adds nothing for it. *)
Theorem text_without_slash_adds_nothing
        (URIs : list URIOccurrence) (node : TxtNode) :
  one_of (getSource node) "/" = false ->
  URI_matches (getSource node) = []
  /\ Str_handler getSource URIs node = URIs.
Proof.
  intros Hno.
  assert (Hnone : URI_matches (getSource node) = []).
  { destruct (URI_matches (getSource node)) as [| [uri idx] ms] eqn:E;
      [reflexivity | exfalso].
    assert (Hin : In (uri, idx) (URI_matches (getSource node)))
      by (rewrite E; left; reflexivity).
    destruct (URI_matches_sound _ _ _ Hin) as (before & after & Ht & _ & Hm).
    destruct (match_at_shape _ _ _ Hm)
      as (scheme & www & host & tld & tail & rest & Hs & _).
    rewrite Ht, one_of_app, Hs in Hno.
    rewrite !one_of_app in Hno. simpl in Hno.
    rewrite !orb_true_r in Hno. discriminate. }
  split; [exact Hnone |].
  unfold Str_handler. rewrite Hnone. simpl. rewrite app_nil_r.
  destruct (isChildNode node [BlockQuote]);
    destruct (isChildNode node [Link]); reflexivity.
Qed.

Lemma visit_from (nodes : list TxtNode) :
  forall (acc : list URIOccurrence) (o : URIOccurrence),
    In o (fold_left (visit getSource) nodes acc) ->
    In o acc
    \/ (In (occ_node o) nodes
        /\ isChildNode (occ_node o) [BlockQuote] = false
        /\ ((node_type (occ_node o) = Str
             /\ isChildNode (occ_node o) [Link] = false
             /\ In (occ_uri o, occ_index o)
                   (URI_matches (getSource (occ_node o))))
            \/ (node_type (occ_node o) = Link
                /\ node_url (occ_node o) = Some (occ_uri o)))).
Proof.
  induction nodes as [| node nodes IH]; intros acc o; simpl; [auto |].
  intros Hin. destruct (IH _ _ Hin) as [Hacc | (Hn & Hrest)];
    [| right; split; [right; exact Hn | exact Hrest]].
  unfold visit in Hacc. destruct (node_type node) eqn:Ht; auto.
  - destruct (Str_handler_added acc node) as (added & Heq & _ & Hadd & _).
    rewrite Heq in Hacc. apply in_app_or in Hacc.
    destruct Hacc as [Hacc | Hacc]; [auto |].
    destruct (Hadd o Hacc) as (Hnode & Hq & Hl & Hm).
    right. rewrite Hnode. split; [left; reflexivity |].
    split; [exact Hq |]. left. auto.
  - unfold Link_handler in Hacc.
    destruct (isChildNode node [BlockQuote]) eqn:Hq; [auto |].
    destruct (node_url node) as [u |] eqn:Hu; [| auto].
    apply in_app_or in Hacc. destruct Hacc as [Hacc | [<- | []]]; [auto |].
    right. cbn [occ_node occ_uri]. split; [left; reflexivity |].
    split; [exact Hq |]. right. auto.
Qed.

(** [X14] Whatever nodes are visited, every occurrence collected belongs to
    one of them, which is not inside a block quote, and is either a text
    node outside any link, with the occurrence a piece of its source text
    at the recorded offset, or a link with the occurrence its URL. *)
Theorem collected_occurrences_come_from_visited_nodes
        (nodes : list TxtNode) (o : URIOccurrence) :
  In o (visit_all getSource nodes) ->
  In (occ_node o) nodes
  /\ isChildNode (occ_node o) [BlockQuote] = false
  /\ ((node_type (occ_node o) = Str
       /\ isChildNode (occ_node o) [Link] = false
       /\ exists before after,
           getSource (occ_node o) = before ++ occ_uri o ++ after
           /\ occ_index o = Z.of_nat (String.length before))
      \/ (node_type (occ_node o) = Link
          /\ node_url (occ_node o) = Some (occ_uri o))).
Proof.
  intros Hin. destruct (visit_from nodes [] o Hin) as [[] | (Hn & Hq & Hk)].
  split; [exact Hn |]. split; [exact Hq |].
  destruct Hk as [(Ht & Hl & Hm) | Hlink]; [left | right; exact Hlink].
  split; [exact Ht |]. split; [exact Hl |].
  destruct (URI_matches_sound _ _ _ Hm) as (before & after & Hs & Hi & _).
  exists before, after. auto.
Qed.

End VisitorFacts.

Lemma Str_handler_occurrences_in_text_witness :
  Str_handler raw [] sample_text
  = [ {| occ_node := sample_text; occ_uri := "http://example.com/a?b=1";
         occ_index := 4 |};
      {| occ_node := sample_text; occ_uri := "//www.foo.org.";
         occ_index := 33 |} ]
  /\ in_order 0 (map (fun o => (occ_uri o, occ_index o))
                     (Str_handler raw [] sample_text)).
Proof.
  split; [reflexivity |].
  destruct (Str_handler_occurrences_in_text raw [] sample_text)
    as (added & Heq & _ & _ & Hord).
  rewrite Heq. exact Hord.
Defined.

Lemma text_without_slash_adds_nothing_witness :
  URI_matches "see www.example.com for more" = []
  /\ Str_handler raw [sample_item] plain_text = [sample_item].
Proof.
  exact (text_without_slash_adds_nothing raw [sample_item] plain_text
                                         eq_refl).
Defined.

Lemma collected_occurrences_come_from_visited_nodes_witness :
  In sample_text [plain_text; sample_text; sample_node]
  /\ isChildNode sample_text [BlockQuote] = false.
Proof.
  destruct (collected_occurrences_come_from_visited_nodes
              raw [plain_text; sample_text; sample_node]
              {| occ_node := sample_text; occ_uri := "//www.foo.org.";
                 occ_index := 33 |}
              (or_intror (or_introl eq_refl)))
    as (Hnode & Hquote & _).
  split; [exact Hnode | exact Hquote].
Defined.

(** * Library calls that throw *)

Section ThrowingFacts.
Context {C : NodeCalls}.

(** Each call made by [lint] throws, or returns what the libraries as
    functions compute. *)
Lemma isRelative_throws_or_returns (uri : string) :
  (exists ex, Throwing.isRelative uri = Throw ex
              /\ call_URL_parse_host uri = Rejected ex)
  \/ Throwing.isRelative uri = Ret (isRelative (L := libs_of C) uri).
Proof.
  unfold Throwing.isRelative, isRelative. simpl.
  destruct (call_URL_parse_host uri) as [host | ex]; simpl.
  - right. reflexivity.
  - left. exists ex. auto.
Qed.

Lemma isLocal_throws_or_returns (uri : string) :
  (exists ex, Throwing.isLocal uri = Throw ex /\ library_threw C ex)
  \/ Throwing.isLocal uri = Ret (isLocal (L := libs_of C) uri).
Proof.
  unfold Throwing.isLocal, isLocal. simpl.
  destruct (call_isAbsolute uri) as [[|] | ex] eqn:Ha; simpl.
  - right. reflexivity.
  - destruct (isRelative_throws_or_returns uri) as [(ex & -> & Hex) | ->].
    + left. exists ex. split; [reflexivity |]. left. exists uri. exact Hex.
    + right. reflexivity.
  - left. exists ex. split; [reflexivity |].
    right; right; right; left. exists uri. exact Ha.
Qed.

Lemma isIgnored_throws_or_returns (uri : string) (patterns : list string) :
  (exists ex, Throwing.isIgnored uri patterns = Throw ex
              /\ exists pattern, In pattern patterns
                                 /\ call_minimatch uri pattern = Rejected ex)
  \/ Throwing.isIgnored uri patterns
     = Ret (isIgnored (L := libs_of C) uri patterns).
Proof.
  induction patterns as [| pattern rest IH]; simpl.
  - right. reflexivity.
  - unfold isIgnored in *. simpl.
    destruct (call_minimatch uri pattern) as [[|] | ex] eqn:Hm; simpl.
    + right. reflexivity.
    + destruct IH as [(ex & -> & p & Hin & Hp) | ->].
      * left. exists ex. split; [reflexivity |]. exists p. auto.
      * right. reflexivity.
    + left. exists ex. split; [reflexivity |]. exists pattern. auto.
Qed.

Lemma matching_origins_throws_or_returns (uri : string)
      (origins : list string) :
  (exists ex, Throwing.matching_origins uri origins = Throw ex
              /\ exists u, call_getURLOrigin u = Rejected ex)
  \/ Throwing.matching_origins uri origins
     = Ret (filter (fun origin =>
                      option_string_eqb (getURLOrigin (NodeLibs := libs_of C) uri)
                                        (getURLOrigin (NodeLibs := libs_of C) origin))
                   origins).
Proof.
  induction origins as [| origin rest IH]; simpl.
  - right. reflexivity.
  - simpl in IH. revert IH.
    destruct (call_getURLOrigin uri) as [a | ex] eqn:Ha; simpl; intros IH;
      [| left; exists ex; split; [reflexivity | exists uri; exact Ha]].
    destruct (call_getURLOrigin origin) as [b | ex] eqn:Hb; simpl;
      [| left; exists ex; split; [reflexivity | exists origin; exact Hb]].
    destruct IH as [(ex & -> & Hex) | ->]; simpl.
    + left. exists ex. auto.
    + right. destruct (option_string_eqb a b); reflexivity.
Qed.

Variable getFilePath : option string.
Variable opts : Options.

Lemma select_method_throws_or_returns (uri : string) :
  (exists ex, Throwing.select_method opts uri = Throw ex
              /\ library_threw C ex)
  \/ Throwing.select_method opts uri
     = Ret (select_method (L := libs_of C) opts uri).
Proof.
  unfold Throwing.select_method, select_method.
  destruct (matching_origins_throws_or_returns uri (preferGET opts))
    as [(ex & -> & Hex) | ->]; simpl.
  - left. exists ex. split; [reflexivity |].
    right; right; right; right. exact Hex.
  - right. reflexivity.
Qed.

Lemma lint_probe_throws_or_returns (node : TxtNode) (uri : string)
      (index : Z) :
  (exists ex, Throwing.lint_probe opts node uri index = Throw ex
              /\ library_threw C ex)
  \/ Throwing.lint_probe opts node uri index
     = lint_probe (L := libs_of C) opts node uri index.
Proof.
  unfold Throwing.lint_probe, lint_probe.
  destruct (select_method_throws_or_returns uri) as [(ex & -> & Hex) | ->];
    simpl; [left; exists ex; auto |].
  destruct (isLocal_throws_or_returns uri) as [(ex & -> & Hex) | ->];
    simpl; [left; exists ex; auto |].
  right. reflexivity.
Qed.

(** [lint] throws at once, for a call of a library that throws, or is
    the [lint] of the libraries as functions. *)
Lemma lint_throws_or_returns (item : URIOccurrence) :
  (exists ex, Throwing.lint getFilePath opts item = Throw ex
              /\ library_threw C ex)
  \/ Throwing.lint getFilePath opts item
     = lint (L := libs_of C) getFilePath opts item.
Proof.
  unfold Throwing.lint, lint. cbv zeta.
  destruct (isIgnored_throws_or_returns (occ_uri item) (ignore opts))
    as [(ex & -> & p & _ & Hex) | ->]; simpl.
  { left. exists ex. split; [reflexivity |].
    right; right; left. exists (occ_uri item), p. exact Hex. }
  destruct (isIgnored (L := libs_of C) (occ_uri item) (ignore opts));
    [right; reflexivity |].
  destruct (isRelative_throws_or_returns (occ_uri item))
    as [(ex & -> & Hex) | ->]; simpl.
  { left. exists ex. split; [reflexivity |].
    left. exists (occ_uri item). exact Hex. }
  destruct (isRelative (L := libs_of C) (occ_uri item));
    [| apply lint_probe_throws_or_returns].
  destruct (negb (checkRelative opts)); [right; reflexivity |].
  destruct (negb (truthy (js_or (baseURI opts) getFilePath)));
    [right; reflexivity |].
  destruct (call_URL_resolve
              (string_value (js_or (baseURI opts) getFilePath))
              (occ_uri item)) as [resolved | ex] eqn:Hres; simpl.
  - apply lint_probe_throws_or_returns.
  - left. exists ex. split; [reflexivity |].
    right; left. eexists; eexists. exact Hres.
Qed.

End ThrowingFacts.

(** ** All checks side by side, with calls that throw *)

Lemma tsteps_settles {A : Type} (p q : Prog A) (evs : list Event) :
  tsteps p evs q -> forall n, Settles n p -> exists m, Settles m q.
Proof.
  induction 1 as [p | p ev q evs r Hstep _ IH]; intros n Hs; [eauto |].
  destruct (tstep_settles n p q ev Hs Hstep) as (n' & _ & Hq).
  eapply IH; eassumption.
Qed.

Lemma tsteps_thrown {A : Type} (p : Prog A) (evs : list Event)
      (ex : JsError) :
  tsteps (Throw ex) evs p -> evs = [] /\ p = Throw ex.
Proof.
  intros H. inversion H as [| p0 ev q evs0 r Hstep Hrest]; subst.
  - auto.
  - inversion Hstep.
Qed.

Lemma pstep_settles_or_thrown {A : Type} (ns : list nat)
      (pool pool' : list (Prog A)) (lab : nat * Event) :
  Forall2 SettlesOrThrown ns pool -> pstep pool lab pool' ->
  exists ns', Forall2 SettlesOrThrown ns' pool'
              /\ list_sum ns = S (list_sum ns').
Proof.
  intros Hall Hstep. destruct Hstep as [before p ev q after Ht].
  apply Forall2_app_inv_r in Hall.
  destruct Hall as (ns1 & ns2 & H1 & H2 & ->).
  inversion H2 as [| n p0 ns3 after0 Hp Hafter]; subst.
  destruct Hp as [Hp | Hp]; [| destruct Ht; discriminate].
  destruct (tstep_settles n p q ev Hp Ht) as (n' & -> & Hq).
  exists (ns1 ++ n' :: ns3)%list. split.
  - apply Forall2_app; [exact H1 | constructor; [left; exact Hq | exact Hafter]].
  - rewrite !list_sum_app. simpl. lia.
Qed.

Lemma psteps_settles_or_thrown {A : Type} (pool pool' : list (Prog A))
      (labs : list (nat * Event)) :
  psteps pool labs pool' ->
  forall ns, Forall2 SettlesOrThrown ns pool ->
  exists ns', Forall2 SettlesOrThrown ns' pool'
              /\ list_sum ns = (List.length labs + list_sum ns')%nat.
Proof.
  induction 1 as [pool | pool lab pool1 labs pool2 Hstep _ IH]; intros ns Hall.
  - exists ns. split; [exact Hall | reflexivity].
  - destruct (pstep_settles_or_thrown ns pool pool1 lab Hall Hstep)
      as (ns1 & H1 & Hsum).
    destruct (IH ns1 H1) as (ns2 & H2 & Hsum2).
    exists ns2. split; [exact H2 | simpl; lia].
Qed.

Lemma all_fulfilled_iff (pool : list (Prog unit)) :
  Promise_all pool = AllFulfilled <-> forall p, In p pool -> p = Ret tt.
Proof.
  unfold Promise_all. split.
  - destruct (existsb is_rejected pool); [discriminate |].
    destruct (forallb is_fulfilled pool) eqn:E; [| discriminate].
    intros _ p Hp. rewrite forallb_forall in E. specialize (E p Hp).
    destruct p as [[] | | | | |]; simpl in E; try discriminate. reflexivity.
  - intros Hall.
    assert (Hr : existsb is_rejected pool = false).
    { destruct (existsb is_rejected pool) eqn:E; [| reflexivity].
      apply existsb_exists in E. destruct E as (p & Hp & Hrej).
      rewrite (Hall p Hp) in Hrej. discriminate. }
    assert (Hf : forallb is_fulfilled pool = true).
    { apply forallb_forall. intros p Hp. rewrite (Hall p Hp). reflexivity. }
    rewrite Hr, Hf. reflexivity.
Qed.

Section ThrowingBatch.
Context {C : NodeCalls}.
Variable getFilePath : option string.
Variable opts : Options.

Lemma Throwing_lint_settles_or_thrown (item : URIOccurrence) :
  SettlesOrThrown 5 (Throwing.lint getFilePath opts item).
Proof.
  destruct (lint_throws_or_returns getFilePath opts item)
    as [(ex & -> & _) | ->].
  - right. reflexivity.
  - left. apply lint_settles.
Qed.

Lemma Throwing_Document_exit_settles (URIs : list URIOccurrence) :
  Forall2 SettlesOrThrown (repeat 5%nat (List.length URIs))
          (Throwing.Document_exit getFilePath opts URIs).
Proof.
  induction URIs as [| item URIs IH]; simpl; constructor;
    [apply Throwing_lint_settles_or_thrown | exact IH].
Qed.

(** A check that is rejected was so from the start, by a call of a
    library that threw, and has done nothing. *)
Lemma rejected_from_the_start (item : URIOccurrence) (evs : list Event)
      (p : Prog unit) :
  tsteps (Throwing.lint getFilePath opts item) evs p ->
  is_rejected p = true ->
  exists ex,
    Throwing.lint getFilePath opts item = Throw ex
    /\ library_threw C ex /\ evs = [] /\ p = Throw ex.
Proof.
  intros Ht Hrej.
  destruct (lint_throws_or_returns getFilePath opts item)
    as [(ex & Heq & Hex) | Heq].
  - rewrite Heq in Ht. apply tsteps_thrown in Ht. destruct Ht as [-> ->].
    exists ex. auto.
  - exfalso. rewrite Heq in Ht.
    destruct (tsteps_settles _ _ _ Ht 5%nat (lint_settles _ _ _)) as (m & Hm).
    rewrite (settles_not_rejected m p Hm) in Hrej. discriminate.
Qed.

End ThrowingBatch.

(** [C5] At the end of the document one check is started for each
    occurrence collected, and [Promise.all] waits for them.  However
    the checks are interleaved and however the requests are answered:
    the check of an occurrence takes the steps of its own [lint] and no
    others; a check is rejected only by a call of a library that throws,
    from the start and before it has done anything, never by a dead
    link, a missing base or a request that throws; [Promise.all] is
    fulfilled exactly when every check has returned; when no check
    throws, it is not rejected; a check that has neither returned nor
    thrown can always go on, whatever it is answered; and all is over
    after five steps for each occurrence at most. *)
Theorem every_check_runs_on_its_own
        {C : NodeCalls} (getFilePath : option string) (opts : Options)
        (URIs : list URIOccurrence)
        (labs : list (nat * Event)) (pool : list (Prog unit)) :
  psteps (Throwing.Document_exit getFilePath opts URIs) labs pool ->
  List.length pool = List.length URIs
  /\ (forall (i : nat) (item : URIOccurrence),
        nth_error URIs i = Some item ->
        exists p : Prog unit,
          nth_error pool i = Some p
          /\ tsteps (Throwing.lint getFilePath opts item) (events_at i labs) p
          /\ (is_rejected p = true ->
              exists ex,
                Throwing.lint getFilePath opts item = Throw ex
                /\ library_threw C ex
                /\ events_at i labs = []))
  /\ (Promise_all pool = AllFulfilled <-> forall p, In p pool -> p = Ret tt)
  /\ ((forall (item : URIOccurrence) (ex : JsError),
          In item URIs -> Throwing.lint getFilePath opts item <> Throw ex) ->
      Promise_all pool <> SomeRejected
      /\ (Promise_all pool = Pending ->
          forall (net : Settled Response) (disk : Settled unit),
          exists (i : nat) (ev : Event) (pool' : list (Prog unit)),
            pstep pool (i, ev) pool'
            /\ match ev with
               | EvFetch _ _ out => out = net
               | EvAccess _ out => out = disk
               | EvReport _ _ => True
               end))
  /\ (forall (before after : list (Prog unit)) (p : Prog unit),
        pool = (before ++ p :: after)%list ->
        is_fulfilled p = false -> is_rejected p = false ->
        forall (net : Settled Response) (disk : Settled unit),
        exists (ev : Event) (q : Prog unit),
          pstep pool (List.length before, ev) (before ++ q :: after)%list
          /\ match ev with
             | EvFetch _ _ out => out = net
             | EvAccess _ out => out = disk
             | EvReport _ _ => True
             end)
  /\ (List.length labs <= 5 * List.length URIs)%nat.
Proof.
  intros Hrun.
  destruct (psteps_settles_or_thrown
              _ _ _ Hrun _
              (Throwing_Document_exit_settles getFilePath opts URIs))
    as (ns & Hns & Hsum).
  rewrite list_sum_repeat in Hsum.
  assert (Hlen : List.length pool = List.length URIs).
  { rewrite (psteps_length _ _ _ Hrun). unfold Throwing.Document_exit.
    apply length_map. }
  assert (Hown : forall i item,
             nth_error URIs i = Some item ->
             exists p,
               nth_error pool i = Some p
               /\ tsteps (Throwing.lint getFilePath opts item)
                         (events_at i labs) p
               /\ (is_rejected p = true ->
                   exists ex,
                     Throwing.lint getFilePath opts item = Throw ex
                     /\ library_threw C ex
                     /\ events_at i labs = [])).
  { intros i item Hi.
    assert (H0 : nth_error (Throwing.Document_exit getFilePath opts URIs) i
                 = Some (Throwing.lint getFilePath opts item)).
    { unfold Throwing.Document_exit. rewrite nth_error_map, Hi. reflexivity. }
    destruct (psteps_at_position _ _ _ Hrun i _ H0) as (p & Hp & Ht).
    exists p. split; [exact Hp |]. split; [exact Ht |]. intros Hrej.
    destruct (rejected_from_the_start getFilePath opts item _ p Ht Hrej)
      as (ex & Heq & Hex & Hevs & _).
    exists ex. auto. }
  assert (Hstep : forall before after p,
             pool = (before ++ p :: after)%list ->
             is_fulfilled p = false -> is_rejected p = false ->
             forall net disk,
             exists ev q,
               pstep pool (List.length before, ev) (before ++ q :: after)%list
               /\ match ev with
                  | EvFetch _ _ out => out = net
                  | EvAccess _ out => out = disk
                  | EvReport _ _ => True
                  end).
  { intros before after p -> Hf Hr net disk.
    apply Forall2_app_inv_r in Hns.
    destruct Hns as (ns1 & ns2 & _ & H2 & _).
    inversion H2 as [| n p0 ns3 after0 Hsp _]; subst.
    destruct Hsp as [Hsp | Hsp]; [| congruence].
    destruct (settles_progress n p Hsp Hf net disk) as (ev & q & Ht & Hev).
    exists ev, q. split; [constructor; exact Ht | exact Hev]. }
  split; [exact Hlen |]. split; [exact Hown |].
  split; [apply all_fulfilled_iff |].
  split; [| split; [exact Hstep | lia]].
  intros Hquiet.
  assert (Hnone : existsb is_rejected pool = false).
  { destruct (existsb is_rejected pool) eqn:E; [| reflexivity]. exfalso.
    apply existsb_exists in E. destruct E as (p & Hp & Hrej).
    apply In_nth_error in Hp. destruct Hp as (i & Hi).
    assert (Hlt : (i < List.length URIs)%nat).
    { rewrite <- Hlen. apply nth_error_Some. congruence. }
    destruct (nth_error URIs i) as [item |] eqn:Hitem;
      [| apply nth_error_None in Hitem; lia].
    destruct (Hown i item Hitem) as (p' & Hp' & _ & Hthrown).
    rewrite Hi in Hp'. injection Hp' as <-.
    destruct (Hthrown Hrej) as (ex & Heq & _).
    apply (Hquiet item ex); [| exact Heq].
    eapply nth_error_In; eassumption. }
  unfold Promise_all. rewrite Hnone. split.
  - destruct (forallb is_fulfilled pool); discriminate.
  - destruct (forallb is_fulfilled pool) eqn:E; [discriminate |].
    intros _ net disk.
    destruct (forallb_false_split _ _ E) as (before & p & after & Hpool & Hp).
    assert (Hr : is_rejected p = false).
    { destruct (is_rejected p) eqn:Hr; [| reflexivity].
      assert (Hex : existsb is_rejected pool = true).
      { apply existsb_exists. exists p. split; [| exact Hr].
        rewrite Hpool. apply in_elt. }
      congruence. }
    destruct (Hstep before after p Hpool Hp Hr net disk) as (ev & q & Hs & Hev).
    exists (List.length before), ev, (before ++ q :: after)%list. auto.
Qed.

Lemma sample_run_steps :
  psteps (Throwing.Document_exit (C := toy_calls) None DEFAULT_OPTIONS
                                 [sample_item; relative_item])
         sample_run [Ret tt; Ret tt].
Proof.
  unfold sample_run.
  eapply psteps_cons.
  - exact (pstep_at [Throwing.lint (C := toy_calls) None DEFAULT_OPTIONS
                                   sample_item]
                    _ _ _ [] (tstep_report _ _ (Ret tt))).
  - eapply psteps_cons; [| apply psteps_nil].
    exact (pstep_at [] _ _ _ [Ret tt]
                    (tstep_fetch "http://example.com/old" (probe_opts "HEAD")
                                 _ (Fulfilled arrived))).
Defined.

Lemma every_check_runs_on_its_own_witness :
  Promise_all (A := unit) [Ret tt; Ret tt] = AllFulfilled
  /\ tsteps (Throwing.lint (C := toy_calls) None DEFAULT_OPTIONS relative_item)
            (events_at 1 sample_run) (Ret tt)
  /\ (List.length sample_run <= 5 * 2)%nat.
Proof.
  destruct (every_check_runs_on_its_own
              (C := toy_calls) None DEFAULT_OPTIONS
              [sample_item; relative_item] sample_run [Ret tt; Ret tt]
              sample_run_steps)
    as (_ & Hown & Hall & _ & _ & Hbound).
  split; [| split; [| exact Hbound]].
  - apply Hall. intros p [<- | [<- | []]]; reflexivity.
  - destruct (Hown 1%nat relative_item eq_refl) as (p & Hp & Ht & _).
    inversion Hp; subst p. exact Ht.
Defined.

(** A check whose URI the library cannot parse is rejected at once, and
    [Promise.all] with it, while the check of another occurrence has not
    yet been answered. *)
Lemma thrown_check_rejects_the_batch_early :
  ~ (forall (C : NodeCalls) (getFilePath : option string) (opts : Options)
            (URIs : list URIOccurrence) (labs : list (nat * Event))
            (pool : list (Prog unit)),
        psteps (Throwing.Document_exit getFilePath opts URIs) labs pool ->
        Promise_all pool <> Pending ->
        forall p, In p pool -> is_fulfilled p = true \/ is_rejected p = true).
Proof.
  intros Hall.
  specialize (Hall faulty_calls None DEFAULT_OPTIONS
                   [sample_item; malformed_item] []
                   (Throwing.Document_exit (C := faulty_calls) None
                                           DEFAULT_OPTIONS
                                           [sample_item; malformed_item])
                   (psteps_nil _)).
  assert (Hsettled : Promise_all
                       (Throwing.Document_exit (C := faulty_calls) None
                                               DEFAULT_OPTIONS
                                               [sample_item; malformed_item])
                     <> Pending)
    by (vm_compute; discriminate).
  destruct (Hall Hsettled
                 (Throwing.lint (C := faulty_calls) None DEFAULT_OPTIONS
                                sample_item)
                 (or_introl eq_refl)) as [H | H];
    vm_compute in H; discriminate H.
Qed.

(** ** What a check leaves behind, with calls that throw *)

Lemma lint_not_thrown {L : NodeLibs} (getFilePath : option string)
      (opts : Options) (item : URIOccurrence) (ex : JsError) :
  lint getFilePath opts item <> Throw ex.
Proof.
  intros Heq. pose proof (lint_settles getFilePath opts item) as Hs.
  rewrite Heq in Hs. inversion Hs.
Qed.



(** [X6] A check that returns without a report either did nothing, the
    URI being ignored or relative with [checkRelative] off, or ended on
    an answer that shows the target alive: a response with a status in
    200 to 299 or a file access that succeeded.  (A check that throws
    reports nothing either.) *)
Theorem silent_return_saw_target_alive
        {C : NodeCalls} (w : World) (getFilePath : option string)
        (opts : Options) (item : URIOccurrence) (h : list Event) :
  exists (out : Outcome unit) (evs : list Event),
    exec w (Throwing.lint getFilePath opts item) h = (out, (h ++ evs)%list)
    /\ (out = Returned tt ->
        reports_of evs = [] ->
        (evs = []
         /\ (Throwing.isIgnored (occ_uri item) (ignore opts) = Ret true
             \/ (Throwing.isRelative (occ_uri item) = Ret true
                 /\ checkRelative opts = false)))
        \/ (exists before last,
               evs = (before ++ [last])%list
               /\ alive_answer last = true))
    /\ (forall ex, out = Thrown ex -> evs = [] /\ library_threw C ex).
Proof.
  assert (Hthrown : forall ex,
             Throwing.lint getFilePath opts item = Throw ex ->
             library_threw C ex ->
             exists out evs,
               exec w (Throwing.lint getFilePath opts item) h
               = (out, (h ++ evs)%list)
               /\ (out = Returned tt ->
                   reports_of evs = [] ->
                   (evs = []
                    /\ (Throwing.isIgnored (occ_uri item) (ignore opts)
                        = Ret true
                        \/ (Throwing.isRelative (occ_uri item) = Ret true
                            /\ checkRelative opts = false)))
                   \/ (exists before last,
                          evs = (before ++ [last])%list
                          /\ alive_answer last = true))
               /\ (forall ex0, out = Thrown ex0 ->
                               evs = [] /\ library_threw C ex0)).
  { intros ex Heq Hex. rewrite Heq. exists (Thrown ex), [].
    rewrite app_nil_r. split; [reflexivity |]. split; [discriminate |].
    intros ex0 H0. injection H0 as <-. auto. }
  destruct (lint_throws_or_returns getFilePath opts item)
    as [(ex & Heq & Hex) | Heq]; [exact (Hthrown ex Heq Hex) |].
  assert (Hign : Throwing.isIgnored (occ_uri item) (ignore opts)
                 = Ret (isIgnored (L := libs_of C) (occ_uri item)
                                  (ignore opts))).
  { destruct (isIgnored_throws_or_returns (occ_uri item) (ignore opts))
      as [(ex & Hi & _) | Hi]; [exfalso | exact Hi].
    apply (lint_not_thrown (L := libs_of C) getFilePath opts item ex).
    rewrite <- Heq. unfold Throwing.lint. cbv zeta. rewrite Hi. reflexivity. }
  assert (Hrel : isIgnored (L := libs_of C) (occ_uri item) (ignore opts)
                 = false ->
                 Throwing.isRelative (occ_uri item)
                 = Ret (isRelative (L := libs_of C) (occ_uri item))).
  { intros Hno.
    destruct (isRelative_throws_or_returns (occ_uri item))
      as [(ex & Hr & _) | Hr]; [exfalso | exact Hr].
    apply (lint_not_thrown (L := libs_of C) getFilePath opts item ex).
    rewrite <- Heq. unfold Throwing.lint. cbv zeta.
    rewrite Hign, Hno. simpl. rewrite Hr. reflexivity. }
  rewrite Heq.
  destruct (lint_ends (L := libs_of C) w getFilePath opts item h)
    as (evs & He & Hs).
  exists (Returned tt), evs. split; [exact He |].
  split; [| discriminate]. intros _ Hnone.
  destruct Hs as [[-> [Hi | [Hr Hc]]]
                 | [(probes & err & -> & Hp & _)
                   | (before & last & Hlast & _ & Halive)]].
  - left. split; [reflexivity |]. left. rewrite Hign, Hi. reflexivity.
  - destruct (isIgnored (L := libs_of C) (occ_uri item) (ignore opts)) eqn:Hi.
    + left. split; [reflexivity |]. left. exact Hign.
    + left. split; [reflexivity |]. right.
      rewrite (Hrel eq_refl), Hr. auto.
  - rewrite reports_of_app, (reports_of_probes probes Hp) in Hnone.
    discriminate.
  - right. exists before, last. auto.
Qed.

Lemma silent_return_saw_target_alive_witness :
  exists before last,
    snd (exec (constant_world (Fulfilled arrived) (Fulfilled tt))
              (Throwing.lint (C := faulty_calls) None DEFAULT_OPTIONS
                             sample_item) [])
    = (before ++ [last])%list
    /\ alive_answer last = true.
Proof.
  destruct (silent_return_saw_target_alive
              (C := faulty_calls)
              (constant_world (Fulfilled arrived) (Fulfilled tt))
              None DEFAULT_OPTIONS sample_item [])
    as (out & evs & He & Hs & _).
  rewrite He. vm_compute in He. inversion He; subst out evs.
  destruct (Hs eq_refl eq_refl) as [[Hnil _] | Halive];
    [discriminate | exact Halive].
Defined.
